(** * UI state synchronisation: the reducer (UIManager) and the stream
      demultiplexer (useAgUIClientWithUIManager), embedded in Rocq.

    The TypeScript types of the repository are erased at run time: the
    state held by the manager, the directives, snapshots and deltas are
    plain JavaScript values produced by [JSON.parse] or by object literals.
    The embedding therefore works on a type [value] of JavaScript data and
    gives each JavaScript operation the source uses ([o[k]], [o[k] = v],
    [delete o[k]], [{...o}], [&&], [||], [??], [?.], [===]) its meaning on
    that type.  The interfaces of [types/ui-state.ts] are a second, typed
    layer ([UIState], [UIDirective], ...) with an embedding into [value] and
    a reading back; statements that range over "every state" range over the
    values that read as a state of that layer.

    Conventions of the value layer:
    - an object is the list of its own enumerable properties in the order
      of enumeration (array indices in ascending order, then the other keys
      in the order of their creation); its prototype is [Object.prototype],
      as for the objects that [JSON.parse], object literals and spreads
      create, so that a key that is no own property is looked up there;
    - the built-in functions a lookup can reach through a prototype are
      values of their own, [VFun]: the program never calls them, it only
      tests, spreads or stores them;
    - module code is strict-mode code: assigning a property of a primitive
      raises [TypeError];
    - numbers are integers (the reducer never computes with numbers); only
      the safe integers, which print as they are written, are printed;
    - strings are sequences of 8-bit characters;
    - the operations that would need more than this are reported as
      [Unmodelled] instead of being given an approximate meaning: holes, a
      [length] write and non-index properties of arrays, the accessor
      [__proto__], a property of a built-in function, and the members of
      [Array.prototype] and [String.prototype], which differ from one
      version of the language to the next. *)

From Stdlib Require Import String Ascii List ZArith Bool Arith Lia.
From Stdlib Require Import DecimalString.
Import ListNotations.
Open Scope string_scope.

(* ================================================================== *)
(** * JavaScript values *)

#[warnings="-register-all"]
Inductive value : Type :=
| VUndef
| VNull
| VBool (b : bool)
| VNum (n : Z)
| VStr (s : string)
| VArr (elems : list value)
| VObj (props : list (string * value))
| VFun (name : string).

Inductive error : Type := TypeError | SyntaxError.

(** The result of running a piece of JavaScript. *)
Inductive outcome (A : Type) : Type :=
| Returns (a : A)
| Throws (e : error)
| Unmodelled.

Arguments Returns {A} a.
Arguments Throws {A} e.
Arguments Unmodelled {A}.

Definition bind {A B : Type} (m : outcome A) (k : A -> outcome B) : outcome B :=
  match m with
  | Returns a => k a
  | Throws e => Throws e
  | Unmodelled => Unmodelled
  end.

Declare Scope js_scope.
Delimit Scope js_scope with js.
Notation "x <- m ;; k" := (bind m (fun x => k))
  (at level 100, m at next level, right associativity) : js_scope.
Notation "' p <- m ;; k" := (bind m (fun p => k))
  (at level 100, p pattern, m at next level, right associativity) : js_scope.
Open Scope js_scope.

(** ** Association lists: the own properties of an object *)

Fixpoint assoc_get {A : Type} (k : string) (ps : list (string * A)) : option A :=
  match ps with
  | [] => None
  | (k', v) :: rest => if String.eqb k k' then Some v else assoc_get k rest
  end.

(** [o[k] = v] on own properties: an existing key keeps its position, a new
    key goes last. *)
Fixpoint assoc_set {A : Type} (k : string) (v : A) (ps : list (string * A))
  : list (string * A) :=
  match ps with
  | [] => [(k, v)]
  | (k', v') :: rest =>
      if String.eqb k k' then (k', v) :: rest else (k', v') :: assoc_set k v rest
  end.

Fixpoint assoc_remove {A : Type} (k : string) (ps : list (string * A))
  : list (string * A) :=
  match ps with
  | [] => []
  | (k', v') :: rest =>
      if String.eqb k k' then assoc_remove k rest else (k', v') :: assoc_remove k rest
  end.

Definition assoc_mem {A : Type} (k : string) (ps : list (string * A)) : bool :=
  match assoc_get k ps with Some _ => true | None => false end.

(** ** Array indices as property keys *)

Definition index_key (i : nat) : string :=
  NilEmpty.string_of_uint (Nat.to_uint i).

(** A property key is an array index when it is the canonical decimal
    numeral of a natural number. *)
Definition parse_index (k : string) : option nat :=
  match NilEmpty.uint_of_string k with
  | Some u =>
      let i := Nat.of_uint u in
      if String.eqb (index_key i) k then Some i else None
  | None => None
  end.

Fixpoint indexed_from {A : Type} (i : nat) (l : list A) : list (string * A) :=
  match l with
  | [] => []
  | x :: rest => (index_key i, x) :: indexed_from (S i) rest
  end.

Fixpoint chars (s : string) : list string :=
  match s with
  | EmptyString => []
  | String c rest => String c EmptyString :: chars rest
  end.

Fixpoint list_set {A : Type} (i : nat) (x : A) (l : list A) : list A :=
  match l, i with
  | [], _ => []
  | _ :: rest, O => x :: rest
  | y :: rest, S j => y :: list_set j x rest
  end.

(** The keys that are enumerated first, in ascending order: the array
    indices, canonical numerals below [2^32 - 1]. *)
Definition array_index (k : string) : option nat :=
  match parse_index k with
  | Some i => if N.ltb (N.of_nat i) 4294967295 then Some i else None
  | None => None
  end.

(** A new property whose key is the array index [i] takes its place among
    the array indices. *)
Fixpoint insert_index {A : Type} (i : nat) (k : string) (v : A)
  (ps : list (string * A)) : list (string * A) :=
  match ps with
  | [] => [(k, v)]
  | (k', v') :: rest =>
      match array_index k' with
      | Some j => if Nat.ltb j i then (k', v') :: insert_index i k v rest
                  else (k, v) :: ps
      | None => (k, v) :: ps
      end
  end.

(** [o[k] = v] on the own properties of an object: an existing property
    keeps its position, a new one is enumerated after the properties there
    are, unless its key is an array index. *)
Definition own_set {A : Type} (k : string) (v : A) (ps : list (string * A))
  : list (string * A) :=
  match assoc_get k ps, array_index k with
  | None, Some i => insert_index i k v ps
  | _, _ => assoc_set k v ps
  end.

(** ** The members every object inherits *)

(** The methods of [Object.prototype]. *)
Definition prototype_methods : list string :=
  ["constructor"; "hasOwnProperty"; "isPrototypeOf"; "propertyIsEnumerable";
   "toLocaleString"; "toString"; "valueOf";
   "__defineGetter__"; "__defineSetter__"; "__lookupGetter__"; "__lookupSetter__"].

Definition is_method (k : string) : bool := existsb (String.eqb k) prototype_methods.

(** The names [Object.prototype] has a member for: its methods and the
    accessor [__proto__]. *)
Definition inherited_name (k : string) : bool :=
  is_method k || String.eqb k "__proto__".

(** ** Operators *)

Definition truthy (v : value) : bool :=
  match v with
  | VUndef | VNull => false
  | VBool b => b
  | VNum n => negb (Z.eqb n 0)
  | VStr s => negb (String.eqb s "")
  | VArr _ | VObj _ | VFun _ => true
  end.

Definition nullish (v : value) : bool :=
  match v with
  | VUndef | VNull => true
  | _ => false
  end.

(** [a === b].  Objects, arrays and functions are compared by identity; the
    two operands the reducer compares are never the same object (one of
    them is a constant or belongs to the message being applied, the other to
    the state or to a prototype), so the comparison of two objects is
    [false]. *)
Definition strict_eq (a b : value) : bool :=
  match a, b with
  | VUndef, VUndef => true
  | VNull, VNull => true
  | VBool x, VBool y => Bool.eqb x y
  | VNum x, VNum y => Z.eqb x y
  | VStr x, VStr y => String.eqb x y
  | _, _ => false
  end.

(** [a && b], [a || b] and [a ?? b] on already evaluated operands. *)
Definition js_and (a b : value) : value := if truthy a then b else a.
Definition js_or (a b : value) : value := if truthy a then a else b.
Definition js_nullish (a b : value) : value := if nullish a then b else a.

(** [typeof v === 'object'] *)
Definition typeof_object (v : value) : bool :=
  match v with
  | VNull | VArr _ | VObj _ => true
  | _ => false
  end.

(** ** Property access *)

(** What [Object.prototype] holds under the key [k]: a method, the
    accessor [__proto__], whose value is [Object.prototype] itself and is
    not modelled, or nothing. *)
Definition inherited (k : string) : outcome value :=
  if is_method k then Returns (VFun k)
  else if String.eqb k "__proto__" then Unmodelled
  else Returns VUndef.

(** The same for a key looked up on an array or a string, where
    [Array.prototype] and [String.prototype] come first: whether they have
    a member for a key that [Object.prototype] has none for depends on the
    version of the language. *)
Definition inherited_or_unknown (k : string) : outcome value :=
  if inherited_name k then inherited k else Unmodelled.

(** The methods [Number.prototype] adds to those of [Object.prototype];
    [Boolean.prototype] adds none. *)
Definition number_methods : list string := ["toExponential"; "toFixed"; "toPrecision"].

(** [o[k]] *)
Definition get_prop (o : value) (k : string) : outcome value :=
  match o with
  | VUndef | VNull => Throws TypeError
  | VBool _ => inherited k
  | VNum _ =>
      if existsb (String.eqb k) number_methods then Returns (VFun k) else inherited k
  | VStr s =>
      if String.eqb k "length" then Returns (VNum (Z.of_nat (String.length s)))
      else match parse_index k with
           | Some i => Returns (nth i (map VStr (chars s)) VUndef)
           | None => inherited_or_unknown k
           end
  | VArr l =>
      if String.eqb k "length" then Returns (VNum (Z.of_nat (List.length l)))
      else match parse_index k with
           | Some i => Returns (nth i l VUndef)
           | None => inherited_or_unknown k
           end
  | VObj ps =>
      match assoc_get k ps with
      | Some v => Returns v
      | None => inherited k
      end
  | VFun _ => Unmodelled
  end.

(** [o?.k] *)
Definition opt_chain (o : value) (k : string) : outcome value :=
  if nullish o then Returns VUndef else get_prop o k.

(** [o[k] = v]: the container after the assignment.  On an object the
    methods of [Object.prototype] are writable, so that the assignment to
    one of their names creates an own property; the assignment to
    [__proto__], unless it is an own property, calls the setter, which
    changes the prototype of the object. *)
Definition set_prop (o : value) (k : string) (v : value) : outcome value :=
  match o with
  | VUndef | VNull => Throws TypeError
  | VBool _ | VNum _ | VStr _ => Throws TypeError
  | VArr l =>
      match parse_index k with
      | Some i =>
          if Nat.ltb i (List.length l) then Returns (VArr (list_set i v l))
          else if Nat.eqb i (List.length l) then Returns (VArr (l ++ [v]))
          else Unmodelled
      | None => Unmodelled
      end
  | VObj ps =>
      if String.eqb k "__proto__" && negb (assoc_mem k ps) then Unmodelled
      else Returns (VObj (own_set k v ps))
  | VFun _ => Unmodelled
  end.

(** [delete o[k]]: the container after the deletion. *)
Definition delete_prop (o : value) (k : string) : outcome value :=
  match o with
  | VUndef | VNull => Throws TypeError
  | VBool _ | VNum _ => Returns o
  | VStr s =>
      if String.eqb k "length" then Throws TypeError
      else match parse_index k with
           | Some i => if Nat.ltb i (String.length s) then Throws TypeError else Returns o
           | None => Returns o
           end
  | VArr l =>
      if String.eqb k "length" then Throws TypeError
      else match parse_index k with
           | Some i => if Nat.ltb i (List.length l) then Unmodelled else Returns o
           | None => Returns o
           end
  | VObj ps => Returns (VObj (assoc_remove k ps))
  | VFun _ => Unmodelled
  end.

(** ['k' in o], for an operand that passed the [typeof] test and a key
    that is no member of [Array.prototype]. *)
Definition has_prop (k : string) (o : value) : bool :=
  match o with
  | VObj ps => assoc_mem k ps || inherited_name k
  | VArr l =>
      if String.eqb k "length" then true
      else match parse_index k with
           | Some i => Nat.ltb i (List.length l)
           | None => inherited_name k
           end
  | _ => false
  end.

(** The properties copied by a spread [{...o}]. *)
Definition own_props (o : value) : list (string * value) :=
  match o with
  | VObj ps => ps
  | VArr l => indexed_from 0 l
  | VStr s => indexed_from 0 (map VStr (chars s))
  | _ => []
  end.

(** The object literal [{...base, k1: v1, ..., kn: vn}]. *)
Definition obj_lit {A : Type} (base : list (string * A)) (fields : list (string * A))
  : list (string * A) :=
  fold_left (fun acc kv => assoc_set (fst kv) (snd kv) acc) fields base.

(** A value used as a property key.  Only strings are given a meaning. *)
Definition to_key (v : value) : outcome string :=
  match v with
  | VStr s => Returns s
  | _ => Unmodelled
  end.

(** ** [JSON.parse(JSON.stringify(v))]

    [undefined] and a function are left out of an object and become [null]
    in an array. *)

Definition json_kept (v : value) : bool :=
  match v with
  | VUndef | VFun _ => false
  | _ => true
  end.

Fixpoint json_copy (v : value) : value :=
  match v with
  | VArr l =>
      VArr (map (fun x => if json_kept x then json_copy x else VNull) l)
  | VObj ps =>
      VObj ((fix copy_props (qs : list (string * value)) : list (string * value) :=
               match qs with
               | [] => []
               | (k, x) :: rest =>
                   if json_kept x then (k, json_copy x) :: copy_props rest
                   else copy_props rest
               end) ps)
  | _ => v
  end.

(** The copy of the properties of an object, as [json_copy] makes it. *)
Definition json_copy_props (ps : list (string * value)) : list (string * value) :=
  match json_copy (VObj ps) with
  | VObj qs => qs
  | _ => []
  end.

(** [JSON.stringify] of [undefined] and of a function is [undefined],
    which [JSON.parse] rejects. *)
Definition json_roundtrip (v : value) : outcome value :=
  if json_kept v then Returns (json_copy v) else Throws SyntaxError.

(* ================================================================== *)
(** * Strings *)

Fixpoint starts_with (p s : string) : bool :=
  match p, s with
  | EmptyString, _ => true
  | String a p', String b s' => Ascii.eqb a b && starts_with p' s'
  | String _ _, EmptyString => false
  end.

Fixpoint rev_string_onto (s acc : string) : string :=
  match s with
  | EmptyString => acc
  | String c rest => rev_string_onto rest (String c acc)
  end.

Definition rev_string (s : string) : string := rev_string_onto s EmptyString.

(** [s.split(sep)] for a non-empty separator: [cur] is the current piece,
    reversed; [skip] counts the characters of a matched separator still to
    be passed over. *)
Fixpoint split_from (sep s cur : string) (skip : nat) : list string :=
  match s with
  | EmptyString => [rev_string cur]
  | String c rest =>
      match skip with
      | S n => split_from sep rest cur n
      | O =>
          if starts_with sep s
          then rev_string cur :: split_from sep rest EmptyString (String.length sep - 1)
          else split_from sep rest (String c cur) 0
      end
  end.

Definition split (sep s : string) : list string := split_from sep s EmptyString 0.

Definition is_space (c : ascii) : bool :=
  let n := nat_of_ascii c in
  Nat.eqb n 32 || (Nat.leb 9 n && Nat.leb n 13).

Fixpoint trim_start (s : string) : string :=
  match s with
  | String c rest => if is_space c then trim_start rest else s
  | EmptyString => EmptyString
  end.

(** [s.trim()] *)
Definition trim (s : string) : string :=
  rev_string (trim_start (rev_string (trim_start s))).

(** [s.slice(n)] for [n >= 0] *)
Fixpoint slice_from (n : nat) (s : string) : string :=
  match n, s with
  | O, _ => s
  | S m, String _ rest => slice_from m rest
  | S _, EmptyString => EmptyString
  end.

(* ================================================================== *)
(** * The reducer: [services/UIManager.ts] *)

(** A subscribed callback is identified by a number; calling it is recorded
    in the history of the manager together with its argument.  A pending
    [setTimeout] is kept with its delay; the only callback the manager ever
    schedules is the auto-hide closure of [updateMediaUploadStatus]. *)
Definition listener := nat.

Inductive event : Type :=
| Notified (l : listener) (s : value)
| Warned (msg : string).

Inductive timer : Type :=
| AutoHide (delay : Z).

Record UIManager : Type := {
  state : value;
  listeners : list listener;
  timers : list timer;
  events : list event
}.

Definition with_state (m : UIManager) (s : value) : UIManager :=
  {| state := s; listeners := listeners m; timers := timers m; events := events m |}.

Definition getInitialState : value :=
  VObj [("content", VObj [("visible", VBool false); ("text", VStr "")]);
        ("mediaUpload",
         VObj [("visible", VBool false);
               ("status", VStr "idle");
               ("acceptedTypes", VArr [VStr "image/*"]);
               ("multiple", VBool false)]);
        ("buttons", VObj [])].

(** [new UIManager(initialState)]; an omitted argument is [VUndef]. *)
Definition constructor (initialState : value) : UIManager :=
  {| state := js_or initialState getInitialState;
     listeners := [];
     timers := [];
     events := [] |}.

(** [Set.prototype.add] and [Set.prototype.delete] on the listener set. *)
Definition set_add (l : listener) (ls : list listener) : list listener :=
  if existsb (Nat.eqb l) ls then ls else ls ++ [l].

Definition set_delete (l : listener) (ls : list listener) : list listener :=
  filter (fun l' => negb (Nat.eqb l l')) ls.

Definition subscribe (m : UIManager) (l : listener) : UIManager :=
  {| state := state m; listeners := set_add l (listeners m);
     timers := timers m; events := events m |}.

(** The function [subscribe] returns. *)
Definition unsubscribe (m : UIManager) (l : listener) : UIManager :=
  {| state := state m; listeners := set_delete l (listeners m);
     timers := timers m; events := events m |}.

Definition notifyListeners (m : UIManager) : UIManager :=
  {| state := state m; listeners := listeners m; timers := timers m;
     events := events m ++ map (fun l => Notified l (state m)) (listeners m) |}.

Definition getState (m : UIManager) : value := state m.

Definition is_action (action : value) (name : string) : bool :=
  strict_eq action (VStr name).

(** [applyUIDirective(state, directive)], lines 136-235. *)
Definition applyUIDirective (st directive : value) : outcome value :=
  let newState := own_props st in
  action <- get_prop directive "action" ;;
  props <- get_prop directive "props" ;;
  if is_action action "show-content" then
    text <- opt_chain props "text" ;;
    Returns (VObj (assoc_set "content"
                     (VObj [("visible", VBool true); ("text", js_or text (VStr ""))])
                     newState))
  else if is_action action "update-content" then
    content <- get_prop (VObj newState) "content" ;;
    ptext <- opt_chain props "text" ;;
    text <- (if nullish ptext then get_prop content "text" else Returns ptext) ;;
    pvisible <- opt_chain props "visible" ;;
    visible <- (if nullish pvisible then get_prop content "visible" else Returns pvisible) ;;
    Returns (VObj (assoc_set "content"
                     (VObj (obj_lit (own_props content)
                                    [("text", text); ("visible", visible)]))
                     newState))
  else if is_action action "hide-content" then
    content <- get_prop (VObj newState) "content" ;;
    Returns (VObj (assoc_set "content"
                     (VObj (obj_lit (own_props content) [("visible", VBool false)]))
                     newState))
  else if is_action action "show-upload" then
    accept <- opt_chain props "accept" ;;
    multiple <- opt_chain props "multiple" ;;
    uploadLabel <- opt_chain props "uploadLabel" ;;
    Returns (VObj (assoc_set "mediaUpload"
                     (VObj [("visible", VBool true);
                            ("status", VStr "idle");
                            ("acceptedTypes",
                             if truthy accept then VArr [accept] else VArr [VStr "image/*"]);
                            ("multiple", js_nullish multiple (VBool false));
                            ("label", uploadLabel)])
                     newState))
  else if is_action action "hide-upload" || is_action action "cancel-upload" then
    mediaUpload <- get_prop (VObj newState) "mediaUpload" ;;
    Returns (VObj (assoc_set "mediaUpload"
                     (VObj (obj_lit (own_props mediaUpload)
                                    [("visible", VBool false); ("status", VStr "idle")]))
                     newState))
  else if is_action action "show-button" then
    buttonId <- opt_chain props "buttonId" ;;
    if truthy buttonId then
      buttons <- get_prop (VObj newState) "buttons" ;;
      key <- to_key buttonId ;;
      enabled <- get_prop props "enabled" ;;
      buttonLabel <- get_prop props "buttonLabel" ;;
      paction <- get_prop props "action" ;;
      style <- get_prop props "style" ;;
      buttons' <- set_prop buttons key
                    (VObj [("visible", VBool true);
                           ("enabled", js_nullish enabled (VBool true));
                           ("label", buttonLabel);
                           ("action", paction);
                           ("style", js_nullish style (VStr "primary"))]) ;;
      Returns (VObj (assoc_set "buttons" buttons' newState))
    else Returns (VObj newState)
  else if is_action action "hide-button" then
    buttonId <- opt_chain props "buttonId" ;;
    if truthy buttonId then
      buttons <- get_prop (VObj newState) "buttons" ;;
      key <- to_key buttonId ;;
      button <- get_prop buttons key ;;
      if truthy button then
        buttons' <- set_prop buttons key
                      (VObj (obj_lit (own_props button) [("visible", VBool false)])) ;;
        Returns (VObj (assoc_set "buttons" buttons' newState))
      else Returns (VObj newState)
    else Returns (VObj newState)
  else if is_action action "update-button" then
    buttonId <- opt_chain props "buttonId" ;;
    if truthy buttonId then
      buttons <- get_prop (VObj newState) "buttons" ;;
      key <- to_key buttonId ;;
      button <- get_prop buttons key ;;
      if truthy button then
        enabled <- get_prop props "enabled" ;;
        buttonLabel <- get_prop props "buttonLabel" ;;
        paction <- get_prop props "action" ;;
        style <- get_prop props "style" ;;
        buttons' <- set_prop buttons key
                      (VObj (obj_lit (own_props button)
                               (own_props (js_and (VBool (negb (strict_eq enabled VUndef)))
                                                  (VObj [("enabled", enabled)]))
                                ++ own_props (js_and buttonLabel (VObj [("label", buttonLabel)]))
                                ++ own_props (js_and paction (VObj [("action", paction)]))
                                ++ own_props (js_and style (VObj [("style", style)]))))) ;;
        Returns (VObj (assoc_set "buttons" buttons' newState))
      else Returns (VObj newState)
    else Returns (VObj newState)
  else Returns (VObj newState).

(** [applyDirective(directive)], lines 76-80. *)
Definition applyDirective (m : UIManager) (directive : value) : outcome UIManager :=
  newState <- applyUIDirective (state m) directive ;;
  Returns (notifyListeners (with_state m newState)).

(** [applySnapshot(snapshot)], lines 86-101. *)
Definition applySnapshot (m : UIManager) (snapshot : value) : outcome UIManager :=
  st <- get_prop snapshot "state" ;;
  if truthy st && typeof_object st && has_prop "ui" st then
    ui <- get_prop st "ui" ;;
    Returns (notifyListeners (with_state m ui))
  else
    Returns (notifyListeners (with_state m st)).

(** ** State deltas *)

(** Lines 245-251: [patch.path.split('/').filter(p => p)], then the removal
    of a leading ['ui'] segment. *)
Definition pathParts (path : string) : list string :=
  let parts := filter (fun p => negb (String.eqb p "")) (split "/" path) in
  match parts with
  | first :: rest => if String.eqb first "ui" then rest else parts
  | [] => parts
  end.

(** The [switch (patch.op)] of lines 265-286, run on the parent container
    [current] and the last segment [key]; it returns the container after the
    operation and the warnings written to the console. *)
Definition apply_op (op v : value) (path : string) (current : value) (key : string)
  : outcome (value * list event) :=
  if is_action op "add" || is_action op "replace" then
    current' <- set_prop current key v ;;
    Returns (current', [])
  else if is_action op "remove" then
    current' <- delete_prop current key ;;
    Returns (current', [])
  else if is_action op "move" || is_action op "copy" then
    if negb (strict_eq v VUndef) then
      current' <- set_prop current key v ;;
      Returns (current', [])
    else Returns (current, [])
  else if is_action op "test" then
    found <- get_prop current key ;;
    if negb (strict_eq found v)
    then Returns (current, [Warned ("State delta test failed for path: " ++ path)])
    else Returns (current, [])
  else Returns (current, []).

(** The source walks a pointer [current] down the copy of the state and
    assigns through it.  On a tree the same walk rebuilds the containers on
    the way back: [write_back current k child] is [current] once the object
    it holds under [k] has become [child].  A primitive cannot change, so a
    container that is not an object or an array is returned as it is. *)
Definition write_back (current : value) (k : string) (child : value) : value :=
  match current with
  | VObj ps => VObj (assoc_set k child ps)
  | VArr l =>
      match parse_index k with
      | Some i => VArr (list_set i child l)
      | None => current
      end
  | _ => current
  end.

(** Lines 253-261: descend along [parents], creating an empty object where
    the next container is missing or falsy, then run [leaf] on the parent
    of the target.  A walk that enters a built-in function, which belongs
    to no state, is not modelled. *)
Fixpoint navigate {A : Type} (parents : list string)
  (leaf : value -> outcome (value * A)) (current : value) : outcome (value * A) :=
  match parents with
  | [] => leaf current
  | p :: rest =>
      child <- get_prop current p ;;
      current1 <- (if truthy child then Returns current
                   else set_prop current p (VObj [])) ;;
      child1 <- get_prop current1 p ;;
      match child1 with
      | VFun _ => Unmodelled
      | _ =>
          '(child2, a) <- navigate rest leaf child1 ;;
          Returns (write_back current1 p child2, a)
      end
  end.

(** One iteration of the loop of lines 244-287.  With no segment left,
    [pathParts[pathParts.length - 1]] is [undefined], which as a property
    key is the string ["undefined"]. *)
Definition apply_patch (newState patch : value) : outcome (value * list event) :=
  path <- get_prop patch "path" ;;
  match path with
  | VStr p =>
      let parts := pathParts p in
      let key := last parts "undefined" in
      op <- get_prop patch "op" ;;
      v <- get_prop patch "value" ;;
      navigate (removelast parts) (fun current => apply_op op v p current key) newState
  | _ => Throws TypeError
  end.

Fixpoint apply_patches (patches : list value) (newState : value)
  : outcome (value * list event) :=
  match patches with
  | [] => Returns (newState, [])
  | patch :: rest =>
      '(newState1, w1) <- apply_patch newState patch ;;
      '(newState2, w2) <- apply_patches rest newState1 ;;
      Returns (newState2, (w1 ++ w2)%list)
  end.

(** The values [for (const patch of delta.patch)] iterates over. *)
Definition iterate (v : value) : outcome (list value) :=
  match v with
  | VArr l => Returns l
  | VStr s => Returns (map VStr (chars s))
  | _ => Throws TypeError
  end.

(** [applyStateDelta(state, delta)], lines 241-290. *)
Definition applyStateDelta (st delta : value) : outcome (value * list event) :=
  newState <- json_roundtrip st ;;
  patch <- get_prop delta "patch" ;;
  patches <- iterate patch ;;
  apply_patches patches newState.

(** [applyDelta(delta)], lines 106-110.  The warnings of a delta that ends
    in an exception are not kept. *)
Definition applyDelta (m : UIManager) (delta : value) : outcome UIManager :=
  '(newState, warnings) <- applyStateDelta (state m) delta ;;
  Returns (notifyListeners
             {| state := newState; listeners := listeners m; timers := timers m;
                events := events m ++ warnings |}).

(** [processMessage(message)], lines 115-123. *)
Definition processMessage (m : UIManager) (message : value) : outcome UIManager :=
  type <- get_prop message "type" ;;
  if strict_eq type (VStr "ui-directive") then applyDirective m message
  else if strict_eq type (VStr "state-snapshot") then applySnapshot m message
  else if strict_eq type (VStr "state-delta") then applyDelta m message
  else Returns m.

(** [reset()], lines 128-131. *)
Definition reset (m : UIManager) : UIManager :=
  notifyListeners (with_state m getInitialState).




(** [updateState(updater)], lines 324-327. *)
Definition updateState (m : UIManager) (updater : value -> outcome value)
  : outcome UIManager :=
  s <- updater (state m) ;;
  Returns (notifyListeners (with_state m s)).

(* ================================================================== *)
(** * The typed data model: [types/ui-state.ts] *)

(** The properties of an object whose optional members may be absent: an
    absent member is left out, as [JSON.parse] leaves it out. *)
Fixpoint fields (fs : list (string * option value)) : list (string * value) :=
  match fs with
  | [] => []
  | (k, Some v) :: rest => (k, v) :: fields rest
  | (_, None) :: rest => fields rest
  end.

Fixpoint field_get (k : string) (fs : list (string * option value)) : option value :=
  match fs with
  | [] => None
  | (k', o) :: rest => if String.eqb k k' then o else field_get k rest
  end.

Fixpoint distinct_keys (ks : list string) : bool :=
  match ks with
  | [] => true
  | k :: rest => negb (existsb (String.eqb k) rest) && distinct_keys rest
  end.

(** Readers of typed members; an optional member reads [undefined] as
    absent. *)
Definition as_bool (v : value) : option bool :=
  match v with VBool b => Some b | _ => None end.

Definition as_string (v : value) : option string :=
  match v with VStr s => Some s | _ => None end.

Definition optional {A : Type} (read : value -> option A) (v : value)
  : option (option A) :=
  match v with
  | VUndef => Some None
  | _ => match read v with Some a => Some (Some a) | None => None end
  end.

Fixpoint as_list {A : Type} (read : value -> option A) (l : list value)
  : option (list A) :=
  match l with
  | [] => Some []
  | x :: rest =>
      match read x, as_list read rest with
      | Some a, Some r => Some (a :: r)
      | _, _ => None
      end
  end.

Definition member (k : string) (ps : list (string * value)) : value :=
  match assoc_get k ps with Some v => v | None => VUndef end.

Module ContentState.
Record t : Type := { text : option string; visible : bool }.

Definition to_value (c : t) : value :=
  VObj (fields [("visible", Some (VBool (visible c)));
                ("text", option_map VStr (text c))]).

Definition of_value (v : value) : option t :=
  match v with
  | VObj ps =>
      match optional as_string (member "text" ps), as_bool (member "visible" ps) with
      | Some t, Some vis => Some {| text := t; visible := vis |}
      | _, _ => None
      end
  | _ => None
  end.
End ContentState.

Module MediaUploadState.
Inductive status_t : Type := idle | uploading | completed | error.

Definition status_name (s : status_t) : string :=
  match s with
  | idle => "idle"
  | uploading => "uploading"
  | completed => "completed"
  | error => "error"
  end.

Definition as_status (v : value) : option status_t :=
  match v with
  | VStr s =>
      if String.eqb s "idle" then Some idle
      else if String.eqb s "uploading" then Some uploading
      else if String.eqb s "completed" then Some completed
      else if String.eqb s "error" then Some error
      else None
  | _ => None
  end.

Record t : Type := {
  visible : bool;
  status : status_t;
  acceptedTypes : option (list string);
  multiple : option bool;
  label : option string
}.

Definition to_value (u : t) : value :=
  VObj (fields [("visible", Some (VBool (visible u)));
                ("status", Some (VStr (status_name (status u))));
                ("acceptedTypes", option_map (fun l => VArr (map VStr l)) (acceptedTypes u));
                ("multiple", option_map VBool (multiple u));
                ("label", option_map VStr (label u))]).

Definition as_types (v : value) : option (list string) :=
  match v with
  | VArr l => as_list as_string l
  | _ => None
  end.

Definition of_value (v : value) : option t :=
  match v with
  | VObj ps =>
      match as_bool (member "visible" ps), as_status (member "status" ps),
            optional as_types (member "acceptedTypes" ps),
            optional as_bool (member "multiple" ps),
            optional as_string (member "label" ps) with
      | Some vis, Some st, Some ty, Some mu, Some la =>
          Some {| visible := vis; status := st; acceptedTypes := ty;
                  multiple := mu; label := la |}
      | _, _, _, _, _ => None
      end
  | _ => None
  end.
End MediaUploadState.

Module ButtonState.
Inductive style_t : Type := primary | secondary | danger.

Definition style_name (s : style_t) : string :=
  match s with
  | primary => "primary"
  | secondary => "secondary"
  | danger => "danger"
  end.

Definition as_style (v : value) : option style_t :=
  match v with
  | VStr s =>
      if String.eqb s "primary" then Some primary
      else if String.eqb s "secondary" then Some secondary
      else if String.eqb s "danger" then Some danger
      else None
  | _ => None
  end.

Record t : Type := {
  visible : bool;
  enabled : bool;
  label : option string;
  action : option string;
  style : option style_t
}.

Definition button_fields (b : t) : list (string * option value) :=
  [("visible", Some (VBool (visible b)));
   ("enabled", Some (VBool (enabled b)));
   ("label", option_map VStr (label b));
   ("action", option_map VStr (action b));
   ("style", option_map (fun s => VStr (style_name s)) (style b))].

Definition to_value (b : t) : value := VObj (fields (button_fields b)).

Definition of_value (v : value) : option t :=
  match v with
  | VObj ps =>
      match as_bool (member "visible" ps), as_bool (member "enabled" ps),
            optional as_string (member "label" ps),
            optional as_string (member "action" ps),
            optional as_style (member "style" ps) with
      | Some vis, Some en, Some la, Some ac, Some sty =>
          Some {| visible := vis; enabled := en; label := la;
                  action := ac; style := sty |}
      | _, _, _, _, _ => None
      end
  | _ => None
  end.
End ButtonState.

Module UIState.
Record t : Type := {
  content : ContentState.t;
  mediaUpload : MediaUploadState.t;
  buttons : list (string * ButtonState.t)
}.

Definition buttons_to_props (bs : list (string * ButtonState.t))
  : list (string * value) :=
  map (fun kb => (fst kb, ButtonState.to_value (snd kb))) bs.

Definition to_value (s : t) : value :=
  VObj [("content", ContentState.to_value (content s));
        ("mediaUpload", MediaUploadState.to_value (mediaUpload s));
        ("buttons", VObj (buttons_to_props (buttons s)))].

Fixpoint buttons_of_props (ps : list (string * value))
  : option (list (string * ButtonState.t)) :=
  match ps with
  | [] => Some []
  | (k, v) :: rest =>
      match ButtonState.of_value v, buttons_of_props rest with
      | Some b, Some r => Some ((k, b) :: r)
      | _, _ => None
      end
  end.

Definition of_value (v : value) : option t :=
  match v with
  | VObj ps =>
      match ContentState.of_value (member "content" ps),
            MediaUploadState.of_value (member "mediaUpload" ps),
            member "buttons" ps with
      | Some c, Some u, VObj bs =>
          match buttons_of_props bs with
          | Some b => Some {| content := c; mediaUpload := u; buttons := b |}
          | None => None
          end
      | _, _, _ => None
      end
  | _ => None
  end.

(** A run-time value reads as the typed state [s] when its members are
    those of [s]; a member that holds [undefined] reads as an absent
    one, and the order of the members plays no part. *)
Definition reads_as (v : value) (s : t) : Prop := of_value v = Some s.

(** The value of [initialState()] of the data model. *)
Definition initial : t :=
  {| content := {| ContentState.text := Some ""; ContentState.visible := false |};
     mediaUpload :=
       {| MediaUploadState.visible := false;
          MediaUploadState.status := MediaUploadState.idle;
          MediaUploadState.acceptedTypes := Some ["image/*"];
          MediaUploadState.multiple := Some false;
          MediaUploadState.label := None |};
     buttons := [] |}.

(** [buttons[id]] on the typed state. *)
Fixpoint button (id : string) (bs : list (string * ButtonState.t))
  : option ButtonState.t :=
  match bs with
  | [] => None
  | (k, b) :: rest => if String.eqb id k then Some b else button id rest
  end.
End UIState.

Module UIDirective.
(** The [props] bag of a directive. *)
Record props_t : Type := {
  text : option string;
  visible : option bool;
  accept : option string;
  multiple : option bool;
  uploadLabel : option string;
  buttonId : option string;
  buttonLabel : option string;
  enabled : option bool;
  paction : option string;
  style : option ButtonState.style_t
}.

Definition props_fields (p : props_t) : list (string * option value) :=
  [("text", option_map VStr (text p));
   ("visible", option_map VBool (visible p));
   ("accept", option_map VStr (accept p));
   ("multiple", option_map VBool (multiple p));
   ("uploadLabel", option_map VStr (uploadLabel p));
   ("buttonId", option_map VStr (buttonId p));
   ("buttonLabel", option_map VStr (buttonLabel p));
   ("enabled", option_map VBool (enabled p));
   ("action", option_map VStr (paction p));
   ("style", option_map (fun s => VStr (ButtonState.style_name s)) (style p))].

Definition props_to_value (p : props_t) : value := VObj (fields (props_fields p)).

(** The declared type lists nine actions; the reducer also receives
    actions it does not know, so the action is a string here. *)
Record t : Type := {
  action : string;
  props : option props_t;
  component : option string
}.

Definition to_value (d : t) : value :=
  VObj (("type", VStr "ui-directive")
        :: ("action", VStr (action d))
        :: fields [("props", option_map props_to_value (props d));
                   ("component", option_map VStr (component d))]).

(** [directive.props] and [directive.props?.k] on a typed directive. *)
Definition props_value (d : t) : value :=
  match props d with
  | Some p => props_to_value p
  | None => VUndef
  end.

Definition prop (d : t) (k : string) : value :=
  match props d with
  | Some p =>
      match field_get k (props_fields p) with
      | Some v => v
      | None => VUndef
      end
  | None => VUndef
  end.

Definition button_id (d : t) : option string :=
  match props d with
  | Some p => buttonId p
  | None => None
  end.

Definition no_props : props_t :=
  {| text := None; visible := None; accept := None; multiple := None;
     uploadLabel := None; buttonId := None; buttonLabel := None;
     enabled := None; paction := None; style := None |}.

Definition known_actions : list string :=
  ["show-content"; "update-content"; "hide-content";
   "show-upload"; "hide-upload"; "cancel-upload";
   "show-button"; "hide-button"; "update-button"].
End UIDirective.

(** The two wire shapes of a [state-snapshot] message and a [state-delta]
    message, as [JSON.parse] delivers them. *)
Definition snapshot_flat (s : value) : value :=
  VObj [("type", VStr "state-snapshot"); ("state", s)].

Definition snapshot_nested (s : value) : value :=
  VObj [("type", VStr "state-snapshot"); ("state", VObj [("ui", s)])].

Definition patch_op (op : value) (path : string) (v : value) : value :=
  VObj [("op", op); ("path", VStr path); ("value", v)].

Definition state_delta (patches : list value) : value :=
  VObj [("type", VStr "state-delta"); ("patch", VArr patches)].

(* ================================================================== *)
(** * The stream demultiplexer: [hooks/useAgUIClientWithUIManager.ts] *)

Definition newline : string := String (ascii_of_nat 10) EmptyString.
Definition blank_line : string := newline ++ newline.

(** [String(v)] for the values that are concatenated to the response text. *)
Definition to_string (v : value) : outcome string :=
  match v with
  | VUndef => Returns "undefined"
  | VNull => Returns "null"
  | VBool true => Returns "true"
  | VBool false => Returns "false"
  | VNum n =>
      if Z.leb (Z.abs n) 9007199254740991
      then Returns (NilZero.string_of_int (Z.to_int n))
      else Unmodelled
  | VStr s => Returns s
  | VArr _ | VFun _ => Unmodelled
  | VObj _ => Returns "[object Object]"
  end.

(** [a + b] *)
Definition js_plus (a b : value) : outcome value :=
  match a, b with
  | VNum x, VNum y => Returns (VNum (x + y))
  | VStr _, _ | _, VStr _ =>
      x <- to_string a ;;
      y <- to_string b ;;
      Returns (VStr (x ++ y))
  | _, _ => Unmodelled
  end.

(** What one turn of [sendMessage] accumulates: the manager, the variable
    [finalContent] and the content of the assistant message on display. *)
Record turn : Type := {
  uiManager : UIManager;
  finalContent : value;
  assistant : value
}.

(** How the handling of a frame leaves the loops. *)
Inductive signal : Type :=
| Continue
| StreamDone
| Return.

Section Demultiplexer.

(** [JSON.parse] belongs to the platform: [None] stands for the
    [SyntaxError] that [parseSSEData] catches. *)
Variable JSON_parse : string -> option value.

(** [parseSSEData(data)], lines 37-54. *)
Definition parseSSEData (data : string) : value :=
  if negb (starts_with "data: " data) then VNull
  else
    let jsonData := trim (slice_from 6 data) in
    if String.eqb jsonData "[DONE]" then VObj [("done", VBool true)]
    else match JSON_parse jsonData with
         | Some v => v
         | None => VNull
         end.

(** The content a [response-messages] frame carries, lines 287-296. *)
Definition message_content (serverMessage : value) : outcome value :=
  content <- get_prop serverMessage "content" ;;
  match content with
  | VStr _ => Returns content
  | _ =>
      t <- opt_chain content "text" ;;
      if truthy t then Returns t
      else
        c <- opt_chain content "content" ;;
        if truthy c then Returns c else Returns (VStr "")
  end.

Definition set_content (t : turn) (m : UIManager) (c : value) : turn :=
  {| uiManager := m; finalContent := c; assistant := c |}.

(** The dispatch on [parsed.type] of lines 258-318; [with_error] tells
    whether the [error] branch is present (it is in the streaming loop and
    not in the whole-body loop of lines 165-212). *)
Definition dispatch (with_error : bool) (t : turn) (parsed : value)
  : outcome (turn * signal) :=
  type <- get_prop parsed "type" ;;
  if strict_eq type (VStr "ui-directive")
     || strict_eq type (VStr "state-snapshot")
     || strict_eq type (VStr "state-delta") then
    m <- processMessage (uiManager t) parsed ;;
    Returns ({| uiManager := m; finalContent := finalContent t;
                assistant := assistant t |}, Continue)
  else if strict_eq type (VStr "text-delta") then
    content <- get_prop parsed "content" ;;
    c <- js_plus (js_or (finalContent t) (VStr "")) content ;;
    Returns (set_content t (uiManager t) c, Continue)
  else if strict_eq type (VStr "response-messages") then
    messages <- get_prop parsed "messages" ;;
    first <- opt_chain messages "0" ;;
    if truthy first then
      c <- message_content first ;;
      Returns (set_content t (uiManager t) c, Continue)
    else Returns (t, Continue)
  else if with_error && strict_eq type (VStr "error") then
    content <- get_prop parsed "content" ;;
    msg <- to_string (js_or content (VStr "Unknown error")) ;;
    Returns (set_content t (uiManager t) (VStr ("Error: " ++ msg)), Return)
  else Returns (t, Continue).

(** The [for (const line of lines)] loops, lines 151-213 and 242-319. *)
Fixpoint handle_lines (with_error : bool) (lines : list string) (t : turn)
  : outcome (turn * signal) :=
  match lines with
  | [] => Returns (t, Continue)
  | line :: rest =>
      let parsed := parseSSEData line in
      if negb (truthy parsed) then handle_lines with_error rest t
      else
        done <- get_prop parsed "done" ;;
        if truthy done then Returns (t, StreamDone)
        else
          '(t1, s) <- dispatch with_error t parsed ;;
          match s with
          | Continue => handle_lines with_error rest t1
          | _ => Returns (t1, s)
          end
  end.

(** Lines 322-335: what is left in the buffer when the stream ends. *)
Definition flush (buffer : string) (t : turn) : outcome turn :=
  if String.eqb buffer "" then Returns t
  else
    let parsed := parseSSEData buffer in
    if negb (truthy parsed) then Returns t
    else
      done <- get_prop parsed "done" ;;
      if truthy done then Returns t
      else
        type <- get_prop parsed "type" ;;
        if strict_eq type (VStr "ui-directive")
           || strict_eq type (VStr "state-snapshot")
           || strict_eq type (VStr "state-delta") then
          m <- processMessage (uiManager t) parsed ;;
          Returns {| uiManager := m; finalContent := finalContent t;
                     assistant := assistant t |}
        else Returns t.

(** [lines.pop() || ''] and what [pop] leaves in [lines]. *)
Definition pop (lines : list string) : list string * string :=
  (removelast lines, last lines "").

(** The reading loop of lines 227-320 over the chunks the reader
    delivers, followed by [flush]; the chunks are the decoded texts. *)
Fixpoint read_loop (chunks : list string) (buffer : string) (t : turn)
  : outcome turn :=
  match chunks with
  | [] => flush buffer t
  | chunk :: rest =>
      let '(lines, buffer1) := pop (split blank_line (buffer ++ chunk)) in
      '(t1, s) <- handle_lines true lines t ;;
      match s with
      | Continue => read_loop rest buffer1 t1
      | StreamDone => flush buffer1 t1
      | Return => Returns t1
      end
  end.

(** One turn from the reset of line 133 on, for a response body that is
    read through a reader. *)
Definition stream_turn (m : UIManager) (chunks : list string) : outcome turn :=
  read_loop chunks ""
    {| uiManager := reset m; finalContent := VStr ""; assistant := VStr "" |}.

(** The same for a response without a body, lines 146-214. *)
Definition text_turn (m : UIManager) (body : string) : outcome turn :=
  '(t, _) <- handle_lines false (split blank_line body)
               {| uiManager := reset m; finalContent := VStr "";
                  assistant := VStr "" |} ;;
  Returns t.

End Demultiplexer.

(* ================================================================== *)
(** * Object identity: the reducer on a store of shared objects

    [getState] hands out [this.state] itself and listeners receive it, so a
    reader keeps a reference into the objects the manager works on.  Whether
    a later call changes what that reference shows depends on which objects
    are created afresh and which are assigned in place.  This section runs
    [applyUIDirective] on a store of objects addressed by location; the
    directive is a message that is only read, so it stays a [value]. *)

Module Ref.

Definition loc := nat.

Inductive rvalue : Type :=
| RUndef
| RNull
| RBool (b : bool)
| RNum (n : Z)
| RStr (s : string)
| RRef (l : loc)
| RFun (name : string).

Inductive cell : Type :=
| CObj (props : list (string * rvalue))
| CArr (elems : list rvalue).

Definition heap := list cell.

Definition M (A : Type) : Type := heap -> outcome (A * heap).

Definition ret {A : Type} (a : A) : M A := fun h => Returns (a, h).

Definition mbind {A B : Type} (m : M A) (k : A -> M B) : M B :=
  fun h =>
    match m h with
    | Returns (a, h') => k a h'
    | Throws e => Throws e
    | Unmodelled => Unmodelled
    end.

Definition lift {A : Type} (o : outcome A) : M A :=
  fun h =>
    match o with
    | Returns a => Returns (a, h)
    | Throws e => Throws e
    | Unmodelled => Unmodelled
    end.

(** Reading the directive. *)
Definition msg_get (o : value) (k : string) : M value := lift (get_prop o k).
Definition msg_opt (o : value) (k : string) : M value := lift (opt_chain o k).
Definition msg_truthy (v : value) : bool := truthy v.
Definition msg_nullish (v : value) : bool := nullish v.

Definition throw {A : Type} (e : error) : M A := fun _ => Throws e.
Definition unmodelled {A : Type} : M A := fun _ => Unmodelled.

Declare Scope ref_scope.
Delimit Scope ref_scope with ref.
Notation "x <- m ;; k" := (mbind m (fun x => k))
  (at level 100, m at next level, right associativity) : ref_scope.
Notation "m ;;; k" := (mbind m (fun _ => k))
  (at level 100, right associativity) : ref_scope.

(** A new object gets the next free location. *)
Definition alloc (c : cell) : M rvalue :=
  fun h => Returns (RRef (List.length h), (h ++ [c])%list).

Definition lookup (l : loc) : M cell :=
  fun h =>
    match nth_error h l with
    | Some c => Returns (c, h)
    | None => Unmodelled
    end.

Definition store (l : loc) (c : cell) : M unit :=
  fun h => Returns (tt, list_set l c h).

Definition truthy (v : rvalue) : bool :=
  match v with
  | RUndef | RNull => false
  | RBool b => b
  | RNum n => negb (Z.eqb n 0)
  | RStr s => negb (String.eqb s "")
  | RRef _ | RFun _ => true
  end.

Definition nullish (v : rvalue) : bool :=
  match v with
  | RUndef | RNull => true
  | _ => false
  end.

(** What the prototypes hold, as in the value layer. *)
Definition inherited (k : string) : M rvalue :=
  if is_method k then ret (RFun k)
  else if String.eqb k "__proto__" then unmodelled
  else ret RUndef.

Definition inherited_or_unknown (k : string) : M rvalue :=
  if inherited_name k then inherited k else unmodelled.

(** [o[k]] *)
Definition get_prop (o : rvalue) (k : string) : M rvalue :=
  match o with
  | RUndef | RNull => throw TypeError
  | RBool _ => inherited k
  | RNum _ =>
      if existsb (String.eqb k) number_methods then ret (RFun k) else inherited k
  | RStr s =>
      if String.eqb k "length" then ret (RNum (Z.of_nat (String.length s)))
      else match parse_index k with
           | Some i => ret (nth i (map RStr (chars s)) RUndef)
           | None => inherited_or_unknown k
           end
  | RRef l =>
      (c <- lookup l ;;
       match c with
       | CObj ps =>
           match assoc_get k ps with
           | Some v => ret v
           | None => inherited k
           end
       | CArr es =>
           if String.eqb k "length" then ret (RNum (Z.of_nat (List.length es)))
           else match parse_index k with
                | Some i => ret (nth i es RUndef)
                | None => inherited_or_unknown k
                end
       end)%ref
  | RFun _ => unmodelled
  end.

(** [o[k] = v]: the object at the location of [o] is changed in place. *)
Definition set_prop (o : rvalue) (k : string) (v : rvalue) : M unit :=
  match o with
  | RUndef | RNull => throw TypeError
  | RBool _ | RNum _ | RStr _ => throw TypeError
  | RRef l =>
      (c <- lookup l ;;
       match c with
       | CObj ps =>
           if String.eqb k "__proto__" && negb (assoc_mem k ps) then unmodelled
           else store l (CObj (own_set k v ps))
       | CArr es =>
           match parse_index k with
           | Some i =>
               if Nat.ltb i (List.length es) then store l (CArr (list_set i v es))
               else if Nat.eqb i (List.length es) then store l (CArr (es ++ [v]))
               else unmodelled
           | None => unmodelled
           end
       end)%ref
  | RFun _ => unmodelled
  end.

(** The properties a spread [{...o}] copies: the references are copied,
    the objects behind them are not. *)
Definition own_props (o : rvalue) : M (list (string * rvalue)) :=
  match o with
  | RRef l =>
      (c <- lookup l ;;
       match c with
       | CObj ps => ret ps
       | CArr es => ret (indexed_from 0 es)
       end)%ref
  | RStr s => ret (indexed_from 0 (map RStr (chars s)))
  | _ => ret []
  end.

(** A value of the message enters the store: its objects are the ones
    [JSON.parse] created for the message. *)
Fixpoint import (v : value) (h : heap) : rvalue * heap :=
  match v with
  | VUndef => (RUndef, h)
  | VNull => (RNull, h)
  | VBool b => (RBool b, h)
  | VNum n => (RNum n, h)
  | VStr s => (RStr s, h)
  | VFun f => (RFun f, h)
  | VArr l =>
      let '(rs, h') :=
        (fix import_list (xs : list value) (h0 : heap) : list rvalue * heap :=
           match xs with
           | [] => ([], h0)
           | x :: rest =>
               let '(r, h1) := import x h0 in
               let '(rs, h2) := import_list rest h1 in
               (r :: rs, h2)
           end) l h in
      (RRef (List.length h'), (h' ++ [CArr rs])%list)
  | VObj ps =>
      let '(rs, h') :=
        (fix import_props (xs : list (string * value)) (h0 : heap)
           : list (string * rvalue) * heap :=
           match xs with
           | [] => ([], h0)
           | (k, x) :: rest =>
               let '(r, h1) := import x h0 in
               let '(rs, h2) := import_props rest h1 in
               ((k, r) :: rs, h2)
           end) ps h in
      (RRef (List.length h'), (h' ++ [CObj rs])%list)
  end.

Definition imported (v : value) : M rvalue :=
  fun h => Returns (import v h).

(** The elements of an array and the properties of an object, as [import]
    takes them in. *)
Fixpoint import_list (xs : list value) (h : heap) : list rvalue * heap :=
  match xs with
  | [] => ([], h)
  | x :: rest =>
      let '(r, h1) := import x h in
      let '(rs, h2) := import_list rest h1 in
      (r :: rs, h2)
  end.

Fixpoint import_props (xs : list (string * value)) (h : heap)
  : list (string * rvalue) * heap :=
  match xs with
  | [] => ([], h)
  | (k, x) :: rest =>
      let '(r, h1) := import x h in
      let '(rs, h2) := import_props rest h1 in
      ((k, r) :: rs, h2)
  end.

(** A store [h'] that holds every object of [h] as it was. *)
Definition keeps (h h' : heap) : Prop := exists ext, h' = (h ++ ext)%list.

(** What a reference shows: the tree of values reachable from it, read
    to a depth of [fuel] objects. *)
Fixpoint reify (fuel : nat) (h : heap) (r : rvalue) : option value :=
  match r with
  | RUndef => Some VUndef
  | RNull => Some VNull
  | RBool b => Some (VBool b)
  | RNum n => Some (VNum n)
  | RStr s => Some (VStr s)
  | RFun f => Some (VFun f)
  | RRef l =>
      match fuel with
      | O => None
      | S fuel' =>
          match nth_error h l with
          | Some (CObj ps) =>
              option_map VObj
                ((fix reify_props (xs : list (string * rvalue))
                    : option (list (string * value)) :=
                    match xs with
                    | [] => Some []
                    | (k, x) :: rest =>
                        match reify fuel' h x, reify_props rest with
                        | Some v, Some vs => Some ((k, v) :: vs)
                        | _, _ => None
                        end
                    end) ps)
          | Some (CArr es) =>
              option_map VArr
                ((fix reify_list (xs : list rvalue) : option (list value) :=
                    match xs with
                    | [] => Some []
                    | x :: rest =>
                        match reify fuel' h x, reify_list rest with
                        | Some v, Some vs => Some (v :: vs)
                        | _, _ => None
                        end
                    end) es)
          | None => None
          end
      end
  end.

Definition new_object (ps : list (string * rvalue)) : M rvalue := alloc (CObj ps).

(** [getInitialState()], lines 30-44: every call builds new objects. *)
Definition getInitialState : M rvalue :=
  (content <- new_object [("visible", RBool false); ("text", RStr "")] ;;
   acceptedTypes <- alloc (CArr [RStr "image/*"]) ;;
   mediaUpload <- new_object [("visible", RBool false); ("status", RStr "idle");
                              ("acceptedTypes", acceptedTypes);
                              ("multiple", RBool false)] ;;
   buttons <- new_object [] ;;
   new_object [("content", content); ("mediaUpload", mediaUpload);
               ("buttons", buttons)])%ref.

(** [applyUIDirective(state, directive)], lines 136-235.  The one-member
    objects of the conditional spreads of [update-button] are spread at
    once and referred to by nothing afterwards; they take no place in the
    store. *)
Definition applyUIDirective (st : rvalue) (directive : value) : M rvalue :=
  (copied <- own_props st ;;
   newState <- new_object copied ;;
   action <- msg_get directive "action" ;;
   props <- msg_get directive "props" ;;
   if is_action action "show-content" then
     text <- msg_opt props "text" ;;
     text' <- imported (js_or text (VStr "")) ;;
     content <- new_object [("visible", RBool true); ("text", text')] ;;
     set_prop newState "content" content ;;;
     ret newState
   else if is_action action "update-content" then
     old <- get_prop newState "content" ;;
     base <- own_props old ;;
     ptext <- msg_opt props "text" ;;
     text <- (if msg_nullish ptext then get_prop old "text" else imported ptext) ;;
     pvisible <- msg_opt props "visible" ;;
     visible <- (if msg_nullish pvisible then get_prop old "visible"
                 else imported pvisible) ;;
     content <- new_object (obj_lit base [("text", text); ("visible", visible)]) ;;
     set_prop newState "content" content ;;;
     ret newState
   else if is_action action "hide-content" then
     old <- get_prop newState "content" ;;
     base <- own_props old ;;
     content <- new_object (obj_lit base [("visible", RBool false)]) ;;
     set_prop newState "content" content ;;;
     ret newState
   else if is_action action "show-upload" then
     accept <- msg_opt props "accept" ;;
     multiple <- msg_opt props "multiple" ;;
     uploadLabel <- msg_opt props "uploadLabel" ;;
     accept' <- imported (if msg_truthy accept then accept else VStr "image/*") ;;
     acceptedTypes <- alloc (CArr [accept']) ;;
     multiple' <- imported (js_nullish multiple (VBool false)) ;;
     label <- imported uploadLabel ;;
     mediaUpload <- new_object [("visible", RBool true); ("status", RStr "idle");
                                ("acceptedTypes", acceptedTypes);
                                ("multiple", multiple'); ("label", label)] ;;
     set_prop newState "mediaUpload" mediaUpload ;;;
     ret newState
   else if is_action action "hide-upload" || is_action action "cancel-upload" then
     old <- get_prop newState "mediaUpload" ;;
     base <- own_props old ;;
     mediaUpload <- new_object (obj_lit base [("visible", RBool false);
                                              ("status", RStr "idle")]) ;;
     set_prop newState "mediaUpload" mediaUpload ;;;
     ret newState
   else if is_action action "show-button" then
     buttonId <- msg_opt props "buttonId" ;;
     if msg_truthy buttonId then
       buttons <- get_prop newState "buttons" ;;
       key <- lift (to_key buttonId) ;;
       enabled <- msg_get props "enabled" ;;
       buttonLabel <- msg_get props "buttonLabel" ;;
       paction <- msg_get props "action" ;;
       style <- msg_get props "style" ;;
       enabled' <- imported (js_nullish enabled (VBool true)) ;;
       label <- imported buttonLabel ;;
       action' <- imported paction ;;
       style' <- imported (js_nullish style (VStr "primary")) ;;
       button <- new_object [("visible", RBool true); ("enabled", enabled');
                             ("label", label); ("action", action');
                             ("style", style')] ;;
       set_prop buttons key button ;;;
       ret newState
     else ret newState
   else if is_action action "hide-button" then
     buttonId <- msg_opt props "buttonId" ;;
     if msg_truthy buttonId then
       buttons <- get_prop newState "buttons" ;;
       key <- lift (to_key buttonId) ;;
       old <- get_prop buttons key ;;
       if truthy old then
         base <- own_props old ;;
         button <- new_object (obj_lit base [("visible", RBool false)]) ;;
         set_prop buttons key button ;;;
         ret newState
       else ret newState
     else ret newState
   else if is_action action "update-button" then
     buttonId <- msg_opt props "buttonId" ;;
     if msg_truthy buttonId then
       buttons <- get_prop newState "buttons" ;;
       key <- lift (to_key buttonId) ;;
       old <- get_prop buttons key ;;
       if truthy old then
         base <- own_props old ;;
         enabled <- msg_get props "enabled" ;;
         buttonLabel <- msg_get props "buttonLabel" ;;
         paction <- msg_get props "action" ;;
         style <- msg_get props "style" ;;
         enabled' <- imported enabled ;;
         label <- imported buttonLabel ;;
         action' <- imported paction ;;
         style' <- imported style ;;
         button <- new_object
                     (obj_lit base
                        ((if negb (strict_eq enabled VUndef)
                          then [("enabled", enabled')] else [])
                         ++ (if msg_truthy buttonLabel then [("label", label)] else [])
                         ++ (if msg_truthy paction then [("action", action')] else [])
                         ++ (if msg_truthy style then [("style", style')] else []))) ;;
         set_prop buttons key button ;;;
         ret newState
       else ret newState
     else ret newState
   else ret newState)%ref.

End Ref.

(* ================================================================== *)
(** * Notions used in the statements *)



(** The directives the reducer ignores on the state [S]: those, but for a
    [hide-button] or [update-button] naming a button that is not there, the
    name is none [Object.prototype] has a member for. *)
Definition ignored_directive (S : UIState.t) (d : UIDirective.t) : Prop :=
  ~ In (UIDirective.action d) UIDirective.known_actions
  \/ (UIDirective.action d = "show-button" /\ UIDirective.button_id d = None)
  \/ ((UIDirective.action d = "hide-button" \/ UIDirective.action d = "update-button")
      /\ (UIDirective.button_id d = None
          \/ exists id, UIDirective.button_id d = Some id
                        /\ UIState.button id (UIState.buttons S) = None
                        /\ inherited_name id = false)).

(** The directive names a button by a name [Object.prototype] has a
    member for. *)
Definition names_inherited (d : UIDirective.t) : bool :=
  match UIDirective.button_id d with
  | Some id => inherited_name id
  | None => false
  end.

(** A button directive for the key [__proto__]: the guards of
    [hide-button] and [update-button] read the accessor, and the assignment
    would change the prototype of [buttons]; the value layer gives neither a
    meaning. *)
Definition targets_proto (d : UIDirective.t) : bool :=
  (String.eqb (UIDirective.action d) "show-button"
   || String.eqb (UIDirective.action d) "hide-button"
   || String.eqb (UIDirective.action d) "update-button")
  && match UIDirective.button_id d with
     | Some id => String.eqb id "__proto__"
     | None => false
     end.

(** The listeners called by a sequence of events, in the order of the
    calls. *)
Fixpoint notified (evs : list event) : list listener :=
  match evs with
  | [] => []
  | Notified l _ :: rest => l :: notified rest
  | Warned _ :: rest => notified rest
  end.

(** What [update-button] makes of the button [b] under the props [p]:
    [enabled] is taken when it is present, [buttonLabel], [action] and
    [style] when they are present and not the empty string. *)
Definition update_button (b : ButtonState.t) (p : UIDirective.props_t) : ButtonState.t :=
  {| ButtonState.visible := ButtonState.visible b;
     ButtonState.enabled :=
       match UIDirective.enabled p with
       | Some e => e
       | None => ButtonState.enabled b
       end;
     ButtonState.label :=
       match UIDirective.buttonLabel p with
       | Some l => if String.eqb l "" then ButtonState.label b else Some l
       | None => ButtonState.label b
       end;
     ButtonState.action :=
       match UIDirective.paction p with
       | Some a => if String.eqb a "" then ButtonState.action b else Some a
       | None => ButtonState.action b
       end;
     ButtonState.style :=
       match UIDirective.style p with
       | Some s => Some s
       | None => ButtonState.style b
       end |}.

(** [buttons[id]] read from the properties of a [buttons] object. *)
Definition lookup_button (id : string) (bs : list (string * value))
  : option ButtonState.t :=
  match assoc_get id bs with
  | Some v => ButtonState.of_value v
  | None => None
  end.

Definition directive (action : string) (p : UIDirective.props_t) : UIDirective.t :=
  {| UIDirective.action := action; UIDirective.props := Some p;
     UIDirective.component := None |}.

(** The merge of [update-button] in the words of the specification: the
    members present in the props are merged, whatever they hold. *)
Definition merge_present_fields (b : ButtonState.t) (p : UIDirective.props_t)
  : ButtonState.t :=
  {| ButtonState.visible := ButtonState.visible b;
     ButtonState.enabled :=
       match UIDirective.enabled p with
       | Some e => e
       | None => ButtonState.enabled b
       end;
     ButtonState.label :=
       match UIDirective.buttonLabel p with
       | Some l => Some l
       | None => ButtonState.label b
       end;
     ButtonState.action :=
       match UIDirective.paction p with
       | Some a => Some a
       | None => ButtonState.action b
       end;
     ButtonState.style :=
       match UIDirective.style p with
       | Some s => Some s
       | None => ButtonState.style b
       end |}.



(** [state.mediaUpload] read as a typed upload state. *)
Definition upload_of (st : value) : option MediaUploadState.t :=
  match get_prop st "mediaUpload" with
  | Returns u => MediaUploadState.of_value u
  | _ => None
  end.

(** Props that carry one member only. *)
Definition button_props (id : string) : UIDirective.props_t :=
  {| UIDirective.text := None; UIDirective.visible := None;
     UIDirective.accept := None; UIDirective.multiple := None;
     UIDirective.uploadLabel := None; UIDirective.buttonId := Some id;
     UIDirective.buttonLabel := None; UIDirective.enabled := None;
     UIDirective.paction := None; UIDirective.style := None |}.


(** A sequence of directives applied one after the other. *)
Fixpoint apply_directives (st : value) (directives : list value) : outcome value :=
  match directives with
  | [] => Returns st
  | d :: rest =>
      st' <- applyUIDirective st d ;;
      apply_directives st' rest
  end.

(** The state a result carries, when there is one. *)
Definition state_of {A : Type} (r : outcome (value * A)) : outcome value :=
  match r with
  | Returns (s, _) => Returns s
  | Throws e => Throws e
  | Unmodelled => Unmodelled
  end.

Definition manager_state (r : outcome UIManager) : outcome value :=
  match r with
  | Returns m => Returns (state m)
  | Throws e => Throws e
  | Unmodelled => Unmodelled
  end.

(** A patch as the loop of [applyStateDelta] reads it: its [op], the
    string that is its [path], its [value]. *)
Definition is_patch (patch op : value) (path : string) (v : value) : Prop :=
  get_prop patch "op" = Returns op
  /\ get_prop patch "path" = Returns (VStr path)
  /\ get_prop patch "value" = Returns v.

(** The walk of lines 253-261 by itself: the state it leaves and the
    container it ends in. *)
Definition walk (parents : list string) (st : value) : outcome (value * value) :=
  navigate parents (fun current => Returns (current, current)) st.

(** The container a path leads to through members that are there: each
    segment names an own property that holds an object. *)
Fixpoint descend (parents : list string) (v : value) : option value :=
  match parents with
  | [] => Some v
  | p :: rest =>
      match v with
      | VObj ps =>
          match assoc_get p ps with
          | Some (VObj cps) => descend rest (VObj cps)
          | _ => None
          end
      | _ => None
      end
  end.

(** The parent segments and the last segment of a path, as lines 253-263
    take them. *)
Definition parents_of (path : string) : list string := removelast (pathParts path).
Definition key_of (path : string) : string := last (pathParts path) "undefined".

(** What a [test] that finds another value writes to the console. *)
Definition test_failed (path : string) : event :=
  Warned ("State delta test failed for path: " ++ path).

(** The segments of a path without its empty segments. *)
Definition segments (path : string) : list string :=
  filter (fun p => negb (String.eqb p "")) (split "/" path).

(** ** The frames of the end-to-end example *)

(** JSON text is written with apostrophes for its quotation marks. *)
Fixpoint json_text (s : string) : string :=
  match s with
  | EmptyString => EmptyString
  | String c rest =>
      String (if Ascii.eqb c "'"%char then ascii_of_nat 34 else c) (json_text rest)
  end.

Definition text_delta_json : string :=
  json_text "{'type':'text-delta','content':'Hello'}".

Definition text_delta_value : value :=
  VObj [("type", VStr "text-delta"); ("content", VStr "Hello")].

Definition show_upload_json : string :=
  json_text "{'type':'ui-directive','action':'show-upload','props':{'accept':'image/*'}}".

Definition show_upload_value : value :=
  VObj [("type", VStr "ui-directive"); ("action", VStr "show-upload");
        ("props", VObj [("accept", VStr "image/*")])].

Definition frame (payload : string) : string := "data: " ++ payload ++ blank_line.

(** The response body: [text-delta], [ui-directive], [[DONE]]. *)
Definition example_body : string :=
  frame text_delta_json ++ frame show_upload_json ++ frame "[DONE]".

(** The upload state the example is to end in. *)
Definition example_upload : MediaUploadState.t :=
  {| MediaUploadState.visible := true;
     MediaUploadState.status := MediaUploadState.idle;
     MediaUploadState.acceptedTypes := Some ["image/*"];
     MediaUploadState.multiple := Some false;
     MediaUploadState.label := None |}.

(** A turn that ended with the text and the upload state of the example. *)
Definition example_result (r : outcome turn) : Prop :=
  exists t,
    r = Returns t
    /\ finalContent t = VStr "Hello"
    /\ assistant t = VStr "Hello"
    /\ upload_of (state (uiManager t)) = Some example_upload
    /\ get_prop (state (uiManager t)) "mediaUpload"
       = Returns (VObj [("visible", VBool true); ("status", VStr "idle");
                        ("acceptedTypes", VArr [VStr "image/*"]);
                        ("multiple", VBool false); ("label", VUndef)]).

(** A parser that knows the two payloads of the example. *)
Definition example_parse (s : string) : option value :=
  if String.eqb s text_delta_json then Some text_delta_value
  else if String.eqb s show_upload_json then Some show_upload_value
  else None.

(** ** The runs of the counterexamples *)

(** The state after [show-button] for a button [confirm] labelled [OK]. *)
Definition confirm_props : UIDirective.props_t :=
  {| UIDirective.text := None; UIDirective.visible := None;
     UIDirective.accept := None; UIDirective.multiple := None;
     UIDirective.uploadLabel := None; UIDirective.buttonId := Some "confirm";
     UIDirective.buttonLabel := Some "OK"; UIDirective.enabled := None;
     UIDirective.paction := Some "confirm-order"; UIDirective.style := None |}.

Definition confirm_button : ButtonState.t :=
  {| ButtonState.visible := true; ButtonState.enabled := true;
     ButtonState.label := Some "OK"; ButtonState.action := Some "confirm-order";
     ButtonState.style := Some ButtonState.primary |}.

Definition confirm_state : value :=
  match applyUIDirective getInitialState
          (UIDirective.to_value (directive "show-button" confirm_props)) with
  | Returns st => st
  | _ => VUndef
  end.

Definition with_confirm : UIState.t :=
  {| UIState.content := UIState.content UIState.initial;
     UIState.mediaUpload := UIState.mediaUpload UIState.initial;
     UIState.buttons := [("confirm", confirm_button)] |}.

(** [update-button] props for [confirm]: one disabling it, one carrying an
    empty label. *)
Definition disable_props : UIDirective.props_t :=
  {| UIDirective.text := None; UIDirective.visible := None;
     UIDirective.accept := None; UIDirective.multiple := None;
     UIDirective.uploadLabel := None; UIDirective.buttonId := Some "confirm";
     UIDirective.buttonLabel := None; UIDirective.enabled := Some false;
     UIDirective.paction := None; UIDirective.style := None |}.

Definition empty_label_props : UIDirective.props_t :=
  {| UIDirective.text := None; UIDirective.visible := None;
     UIDirective.accept := None; UIDirective.multiple := None;
     UIDirective.uploadLabel := None; UIDirective.buttonId := Some "confirm";
     UIDirective.buttonLabel := Some ""; UIDirective.enabled := None;
     UIDirective.paction := None; UIDirective.style := None |}.





(* ================================================================== *)
(** * Facts about the value layer *)

Section AssocFacts.
Context {A : Type}.
Implicit Types (ps : list (string * A)) (k : string) (v : A).

Lemma assoc_get_set_same ps k v : assoc_get k (assoc_set k v ps) = Some v.
Proof.
  induction ps as [|[k' v'] ps IH]; simpl.
  - now rewrite String.eqb_refl.
  - destruct (String.eqb k k') eqn:E; simpl; rewrite E; auto.
Qed.

Lemma assoc_get_set_other ps k k' v :
  k <> k' -> assoc_get k (assoc_set k' v ps) = assoc_get k ps.
Proof.
  intros Hne. induction ps as [|[k0 v0] ps IH]; simpl.
  - apply String.eqb_neq in Hne. now rewrite Hne.
  - destruct (String.eqb k' k0) eqn:E; simpl.
    + apply String.eqb_eq in E. subst k0.
      apply String.eqb_neq in Hne. now rewrite Hne.
    + now rewrite IH.
Qed.

Lemma assoc_set_same_value ps k v :
  assoc_get k ps = Some v -> assoc_set k v ps = ps.
Proof.
  induction ps as [|[k' v'] ps IH]; simpl; [discriminate|].
  destruct (String.eqb k k'); intros H.
  - now inversion H.
  - now rewrite IH.
Qed.

(** A property that is there is assigned in place; so is one whose key is
    no array index. *)
Lemma own_set_present ps k v v' :
  assoc_get k ps = Some v' -> own_set k v ps = assoc_set k v ps.
Proof. intros H. unfold own_set. now rewrite H. Qed.

Lemma assoc_get_insert_same ps i k v :
  assoc_get k ps = None -> assoc_get k (insert_index i k v ps) = Some v.
Proof.
  induction ps as [|[k' v'] ps IH]; simpl.
  - now rewrite String.eqb_refl.
  - destruct (String.eqb k k') eqn:E; [discriminate|]. intros H.
    destruct (array_index k') as [j|]; [destruct (Nat.ltb j i)|];
      simpl; rewrite ?E, ?String.eqb_refl; auto.
Qed.

Lemma assoc_get_insert_other ps i k k' v :
  k <> k' -> assoc_get k (insert_index i k' v ps) = assoc_get k ps.
Proof.
  intros Hne. apply String.eqb_neq in Hne.
  induction ps as [|[k0 v0] ps IH]; simpl.
  - now rewrite Hne.
  - destruct (array_index k0) as [j|]; [destruct (Nat.ltb j i)|];
      simpl; rewrite ?Hne, ?IH; reflexivity.
Qed.

Lemma assoc_get_own_set_same ps k v : assoc_get k (own_set k v ps) = Some v.
Proof.
  unfold own_set. destruct (assoc_get k ps) eqn:E.
  - apply assoc_get_set_same.
  - destruct (array_index k); [now apply assoc_get_insert_same|].
    apply assoc_get_set_same.
Qed.

Lemma assoc_get_own_set_other ps k k' v :
  k <> k' -> assoc_get k (own_set k' v ps) = assoc_get k ps.
Proof.
  intros Hne. unfold own_set.
  destruct (assoc_get k' ps); [now apply assoc_get_set_other|].
  destruct (array_index k'); [now apply assoc_get_insert_other|].
  now apply assoc_get_set_other.
Qed.

End AssocFacts.

(** ** Keys and the prototype *)

Lemma inherited_plain (k : string) :
  inherited_name k = false -> inherited k = Returns VUndef.
Proof.
  unfold inherited_name, inherited. intros H.
  apply orb_false_iff in H. destruct H as [H1 H2]. now rewrite H1, H2.
Qed.

Lemma inherited_name_proto (k : string) :
  inherited_name k = false -> String.eqb k "__proto__" = false.
Proof. unfold inherited_name. intros H. now apply orb_false_iff in H. Qed.

(** A method of [Object.prototype] is found on every object that has no
    property of that name. *)
Lemma inherited_method (k : string) :
  is_method k = true -> inherited k = Returns (VFun k).
Proof. unfold inherited. now intros ->. Qed.

(** Reading a member of an object built by [fields]. *)
Lemma assoc_get_fields (fs : list (string * option value)) (k : string) :
  distinct_keys (map fst fs) = true ->
  assoc_get k (fields fs) = field_get k fs.
Proof.
  induction fs as [|[k' o] fs IH]; simpl; [reflexivity|].
  intros H. apply andb_true_iff in H. destruct H as [Hk Hd].
  destruct o as [v|]; simpl.
  - destruct (String.eqb k k'); auto.
  - destruct (String.eqb k k') eqn:E; auto.
    apply String.eqb_eq in E. subst k'.
    rewrite IH by assumption.
    clear IH Hd. induction fs as [|[k0 o0] fs IH]; simpl in *; [reflexivity|].
    apply negb_true_iff in Hk. apply orb_false_iff in Hk. destruct Hk as [Hk0 Hk].
    rewrite Hk0. apply IH. now apply negb_true_iff.
Qed.

Lemma get_prop_fields (fs : list (string * option value)) (k : string) :
  distinct_keys (map fst fs) = true ->
  inherited_name k = false ->
  get_prop (VObj (fields fs)) k
  = Returns (match field_get k fs with Some v => v | None => VUndef end).
Proof.
  intros H Hk. unfold get_prop. rewrite assoc_get_fields by assumption.
  destruct (field_get k fs); [reflexivity|now apply inherited_plain].
Qed.


(** A value of the typed layer holds no [undefined]: the copy through JSON
    returns it as it is. *)
Lemma json_copy_strings (l : list string) :
  map (fun x => if json_kept x then json_copy x else VNull) (map VStr l)
  = map VStr l.
Proof. induction l; simpl; congruence. Qed.

Lemma json_copy_content (c : ContentState.t) :
  json_copy (ContentState.to_value c) = ContentState.to_value c.
Proof. destruct c as [[t|] v]; reflexivity. Qed.

Lemma json_copy_mediaUpload (u : MediaUploadState.t) :
  json_copy (MediaUploadState.to_value u) = MediaUploadState.to_value u.
Proof.
  destruct u as [v s [ty|] [mu|] [la|]]; cbn; rewrite ?json_copy_strings; reflexivity.
Qed.

Lemma json_copy_button (b : ButtonState.t) :
  json_copy (ButtonState.to_value b) = ButtonState.to_value b.
Proof. destruct b as [v e [la|] [ac|] [sty|]]; reflexivity. Qed.

Lemma json_copy_obj (ps : list (string * value)) :
  json_copy (VObj ps) = VObj (json_copy_props ps).
Proof. reflexivity. Qed.

Lemma json_copy_props_cons (k : string) (x : value) (ps : list (string * value)) :
  json_kept x = true ->
  json_copy_props ((k, x) :: ps) = (k, json_copy x) :: json_copy_props ps.
Proof. intros H. unfold json_copy_props. cbn [json_copy]. now rewrite H. Qed.

Lemma button_defined (b : ButtonState.t) : json_kept (ButtonState.to_value b) = true.
Proof. reflexivity. Qed.

Lemma json_copy_buttons (bs : list (string * ButtonState.t)) :
  json_copy_props (UIState.buttons_to_props bs) = UIState.buttons_to_props bs.
Proof.
  induction bs as [|[k b] bs IH]; [reflexivity|].
  unfold UIState.buttons_to_props in *. simpl map.
  rewrite json_copy_props_cons by apply button_defined.
  now rewrite IH, json_copy_button.
Qed.

Lemma json_copy_state (s : UIState.t) :
  json_copy (UIState.to_value s) = UIState.to_value s.
Proof.
  destruct s as [c u bs]. unfold UIState.to_value.
  cbn [UIState.content UIState.mediaUpload UIState.buttons].
  rewrite json_copy_obj.
  rewrite !json_copy_props_cons by (destruct c as [[t|] v]; reflexivity).
  rewrite json_copy_content, json_copy_mediaUpload, json_copy_obj, json_copy_buttons.
  reflexivity.
Qed.

Lemma json_roundtrip_state (s : UIState.t) :
  json_roundtrip (UIState.to_value s) = Returns (UIState.to_value s).
Proof. unfold json_roundtrip. rewrite json_copy_state. reflexivity. Qed.

Lemma of_value_button (b : ButtonState.t) :
  ButtonState.of_value (ButtonState.to_value b) = Some b.
Proof. destruct b as [v e [la|] [ac|] [[]|]]; reflexivity. Qed.

(** ** Values that read as a state of the data model *)

Lemma reads_as_inv (st : value) (S : UIState.t) :
  UIState.reads_as st S ->
  exists ps bs,
    st = VObj ps
    /\ ContentState.of_value (member "content" ps) = Some (UIState.content S)
    /\ MediaUploadState.of_value (member "mediaUpload" ps) = Some (UIState.mediaUpload S)
    /\ member "buttons" ps = VObj bs
    /\ UIState.buttons_of_props bs = Some (UIState.buttons S).
Proof.
  unfold UIState.reads_as, UIState.of_value.
  destruct st as [| | | | | |ps|]; try discriminate.
  destruct (ContentState.of_value (member "content" ps)) as [c|] eqn:Ec; [|discriminate].
  destruct (MediaUploadState.of_value (member "mediaUpload" ps)) as [u|] eqn:Eu;
    [|discriminate].
  destruct (member "buttons" ps) as [| | | | | |bs|] eqn:Eb; try discriminate.
  destruct (UIState.buttons_of_props bs) as [b|] eqn:E; [|discriminate].
  intros H. inversion H; subst. simpl.
  exists ps, bs. repeat split; assumption.
Qed.

Lemma content_inv (v : value) (c : ContentState.t) :
  ContentState.of_value v = Some c -> exists ps, v = VObj ps.
Proof. destruct v; try discriminate. eauto. Qed.


Lemma button_inv (v : value) (b : ButtonState.t) :
  ButtonState.of_value v = Some b ->
  exists ps,
    v = VObj ps
    /\ as_bool (member "visible" ps) = Some (ButtonState.visible b)
    /\ as_bool (member "enabled" ps) = Some (ButtonState.enabled b)
    /\ optional as_string (member "label" ps) = Some (ButtonState.label b)
    /\ optional as_string (member "action" ps) = Some (ButtonState.action b)
    /\ optional ButtonState.as_style (member "style" ps) = Some (ButtonState.style b).
Proof.
  destruct v as [| | | | | |ps|]; try discriminate. cbn [ButtonState.of_value].
  destruct (as_bool (member "visible" ps)) eqn:E1; [|discriminate].
  destruct (as_bool (member "enabled" ps)) eqn:E2; [|discriminate].
  destruct (optional as_string (member "label" ps)) eqn:E3; [|discriminate].
  destruct (optional as_string (member "action" ps)) eqn:E4; [|discriminate].
  destruct (optional ButtonState.as_style (member "style" ps)) eqn:E5; [|discriminate].
  intros H. inversion H; subst. simpl.
  exists ps. repeat split; assumption.
Qed.

(** [buttons[id]] on a value that reads as the buttons of a typed state. *)
Lemma buttons_member (bs : list (string * value)) (tbs : list (string * ButtonState.t))
  (id : string) :
  UIState.buttons_of_props bs = Some tbs ->
  match UIState.button id tbs with
  | Some b => exists v, assoc_get id bs = Some v /\ ButtonState.of_value v = Some b
  | None => assoc_get id bs = None
  end.
Proof.
  revert tbs. induction bs as [|[k v] bs IH]; intros tbs; simpl.
  - intros H. inversion H. reflexivity.
  - destruct (ButtonState.of_value v) as [b|] eqn:Eb; [|discriminate].
    destruct (UIState.buttons_of_props bs) as [r|]; [|discriminate].
    intros H. inversion H; subst. simpl.
    destruct (String.eqb id k); [eauto|].
    now apply IH.
Qed.

Lemma reads_as_to_value (S : UIState.t) : UIState.reads_as (UIState.to_value S) S.
Proof.
  destruct S as [[t v] [uv us ty mu la] bs].
  unfold UIState.reads_as, UIState.to_value, UIState.of_value.
  cbn [member assoc_get String.eqb Ascii.eqb Bool.eqb UIState.content
       UIState.mediaUpload UIState.buttons].
  replace (ContentState.of_value _) with
    (Some {| ContentState.text := t; ContentState.visible := v |})
    by (destruct t; reflexivity).
  replace (MediaUploadState.of_value _) with
    (Some {| MediaUploadState.visible := uv; MediaUploadState.status := us;
             MediaUploadState.acceptedTypes := ty; MediaUploadState.multiple := mu;
             MediaUploadState.label := la |}).
  2:{ assert (Hty : forall l, as_list as_string (map VStr l) = Some l)
        by (induction l as [|x l IH]; simpl; [|rewrite IH]; reflexivity).
      destruct us, ty as [ty|], mu, la; cbn; rewrite ?Hty; reflexivity. }
  replace (UIState.buttons_of_props _) with (Some bs); [reflexivity|].
  induction bs as [|[k b] bs IH]; [reflexivity|].
  cbn [UIState.buttons_to_props map UIState.buttons_of_props fst snd].
  fold (UIState.buttons_to_props bs).
  rewrite of_value_button, <- IH. reflexivity.
Qed.

(** ** Reading a typed directive *)


Lemma get_directive_action (d : UIDirective.t) :
  get_prop (UIDirective.to_value d) "action" = Returns (VStr (UIDirective.action d)).
Proof. reflexivity. Qed.

Lemma get_directive_props (d : UIDirective.t) :
  get_prop (UIDirective.to_value d) "props" = Returns (UIDirective.props_value d).
Proof. destruct d as [a [p|] [c|]]; reflexivity. Qed.

Lemma get_props_member (p : UIDirective.props_t) (k : string) :
  inherited_name k = false ->
  get_prop (UIDirective.props_to_value p) k
  = Returns (match field_get k (UIDirective.props_fields p) with
             | Some v => v
             | None => VUndef
             end).
Proof. intros Hk. apply get_prop_fields; [reflexivity|assumption]. Qed.

Lemma opt_chain_props (d : UIDirective.t) (k : string) :
  inherited_name k = false ->
  opt_chain (UIDirective.props_value d) k = Returns (UIDirective.prop d k).
Proof.
  intros Hk. unfold UIDirective.props_value, UIDirective.prop.
  destruct (UIDirective.props d) as [p|]; [|reflexivity].
  unfold opt_chain. cbn [nullish UIDirective.props_to_value].
  now apply get_props_member.
Qed.

Lemma get_props_value (d : UIDirective.t) (k : string) :
  UIDirective.props d <> None ->
  inherited_name k = false ->
  get_prop (UIDirective.props_value d) k = Returns (UIDirective.prop d k).
Proof.
  unfold UIDirective.props_value, UIDirective.prop.
  destruct (UIDirective.props d) as [p|]; [intros _ Hk|now intros []].
  now apply get_props_member.
Qed.

Lemma button_id_props (d : UIDirective.t) (id : string) :
  UIDirective.button_id d = Some id -> UIDirective.props d <> None.
Proof. unfold UIDirective.button_id. now destruct (UIDirective.props d). Qed.

Lemma prop_buttonId (d : UIDirective.t) :
  UIDirective.prop d "buttonId"
  = match UIDirective.button_id d with Some id => VStr id | None => VUndef end.
Proof.
  unfold UIDirective.prop, UIDirective.button_id.
  destruct (UIDirective.props d) as [p|]; [|reflexivity].
  cbn. now destruct (UIDirective.buttonId p).
Qed.

Lemma is_action_string (a name : string) :
  is_action (VStr a) name = String.eqb a name.
Proof. reflexivity. Qed.

(** Reading an object under a key [Object.prototype] has no member for,
    and under the key of an own property. *)
Lemma get_prop_obj (ps : list (string * value)) (k : string) :
  inherited_name k = false ->
  get_prop (VObj ps) k = Returns (member k ps).
Proof.
  intros Hk. unfold get_prop, member.
  destruct (assoc_get k ps); [reflexivity|now apply inherited_plain].
Qed.

Lemma get_prop_own (ps : list (string * value)) (k : string) (v : value) :
  assoc_get k ps = Some v -> get_prop (VObj ps) k = Returns v.
Proof. intros H. unfold get_prop. now rewrite H. Qed.

Lemma get_prop_missing (ps : list (string * value)) (k : string) :
  assoc_get k ps = None -> get_prop (VObj ps) k = inherited k.
Proof. intros H. unfold get_prop. now rewrite H. Qed.

Lemma set_prop_obj (ps : list (string * value)) (k : string) (v : value) :
  String.eqb k "__proto__" = false ->
  set_prop (VObj ps) k v = Returns (VObj (own_set k v ps)).
Proof. intros H. unfold set_prop. now rewrite H. Qed.

Lemma set_prop_own (ps : list (string * value)) (k : string) (v v' : value) :
  assoc_get k ps = Some v' ->
  set_prop (VObj ps) k v = Returns (VObj (assoc_set k v ps)).
Proof.
  intros H. unfold set_prop, assoc_mem. rewrite H, andb_false_r.
  now rewrite (own_set_present ps k v v').
Qed.

Lemma truthy_string (s : string) : s <> "" -> truthy (VStr s) = true.
Proof. intros H. simpl. apply negb_true_iff. now apply String.eqb_neq. Qed.


(** The body of [applyUIDirective] once the action and the props of a typed
    directive have been read, on a state that is an object. *)
Ltac read_directive :=
  unfold applyUIDirective;
  rewrite get_directive_action, get_directive_props;
  cbn [bind own_props]; rewrite ?is_action_string;
  rewrite ?get_prop_obj by reflexivity; cbn [bind].

Lemma unknown_action_tests (a : string) :
  ~ In a UIDirective.known_actions ->
  String.eqb a "show-content" = false /\ String.eqb a "update-content" = false
  /\ String.eqb a "hide-content" = false /\ String.eqb a "show-upload" = false
  /\ String.eqb a "hide-upload" = false /\ String.eqb a "cancel-upload" = false
  /\ String.eqb a "show-button" = false /\ String.eqb a "hide-button" = false
  /\ String.eqb a "update-button" = false.
Proof.
  intros H. repeat split; apply String.eqb_neq; intros ->; apply H; simpl; tauto.
Qed.

Lemma applyUIDirective_unknown (ps : list (string * value)) (d : UIDirective.t) :
  ~ In (UIDirective.action d) UIDirective.known_actions ->
  applyUIDirective (VObj ps) (UIDirective.to_value d) = Returns (VObj ps).
Proof.
  intros H. apply unknown_action_tests in H.
  destruct H as (H1 & H2 & H3 & H4 & H5 & H6 & H7 & H8 & H9).
  read_directive.
  rewrite H1, H2, H3, H4, H5, H6, H7, H8, H9. reflexivity.
Qed.

Lemma applyUIDirective_no_button_id (ps : list (string * value)) (d : UIDirective.t) :
  (UIDirective.action d = "show-button" \/ UIDirective.action d = "hide-button"
   \/ UIDirective.action d = "update-button") ->
  UIDirective.button_id d = None ->
  applyUIDirective (VObj ps) (UIDirective.to_value d) = Returns (VObj ps).
Proof.
  intros Ha Hid. read_directive.
  destruct Ha as [-> | [-> | ->]]; cbn [String.eqb Ascii.eqb Bool.eqb orb];
    rewrite opt_chain_props, prop_buttonId, Hid by reflexivity; reflexivity.
Qed.

Lemma applyUIDirective_missing_button (st : value) (S : UIState.t)
  (d : UIDirective.t) (id : string) :
  UIState.reads_as st S ->
  (UIDirective.action d = "hide-button" \/ UIDirective.action d = "update-button") ->
  UIDirective.button_id d = Some id ->
  UIState.button id (UIState.buttons S) = None ->
  inherited_name id = false ->
  applyUIDirective st (UIDirective.to_value d) = Returns st.
Proof.
  intros Hst Ha Hid Hb Hplain.
  destruct (reads_as_inv _ _ Hst) as (ps & bs & -> & _ & _ & Hbs & Hdec).
  pose proof (buttons_member bs _ id Hdec) as Hm. rewrite Hb in Hm.
  read_directive.
  destruct Ha as [-> | ->]; cbn [String.eqb Ascii.eqb Bool.eqb orb];
    rewrite opt_chain_props, prop_buttonId, Hid by reflexivity; cbn [bind];
    (destruct (truthy (VStr id)); [|reflexivity]);
    rewrite Hbs; cbn [bind to_key];
    rewrite get_prop_obj by assumption; unfold member; rewrite Hm; reflexivity.
Qed.

Lemma applyUIDirective_ignored (st : value) (S : UIState.t) (d : UIDirective.t) :
  UIState.reads_as st S ->
  ignored_directive S d ->
  applyUIDirective st (UIDirective.to_value d) = Returns st.
Proof.
  intros Hst.
  destruct (reads_as_inv _ _ Hst) as (ps & bs & Heq & _).
  intros [H | [[Ha Hid] | [Ha [Hid | (id & Hid & Hb & Hplain)]]]].
  - subst st. now apply applyUIDirective_unknown.
  - subst st. apply applyUIDirective_no_button_id; auto.
  - subst st. apply applyUIDirective_no_button_id; tauto.
  - eapply applyUIDirective_missing_button; eauto.
Qed.

Lemma notified_calls (s : value) (ls : list listener) :
  notified (map (fun l => Notified l s) ls) = ls.
Proof. induction ls as [|l ls IH]; simpl; congruence. Qed.

(** What [buttons[id]] reads on the buttons of a state of the data model:
    the button, a method of [Object.prototype], or nothing. *)
Lemma get_button (bs : list (string * value)) (tbs : list (string * ButtonState.t))
  (id : string) :
  UIState.buttons_of_props bs = Some tbs ->
  String.eqb id "__proto__" = false ->
  exists v, get_prop (VObj bs) id = Returns v.
Proof.
  intros Hdec Hid. unfold get_prop.
  destruct (assoc_get id bs); [eauto|].
  unfold inherited. rewrite Hid. destruct (is_method id); eauto.
Qed.

Lemma targets_proto_id (d : UIDirective.t) (a id : string) :
  targets_proto d = false ->
  UIDirective.action d = a ->
  In a ["show-button"; "hide-button"; "update-button"] ->
  UIDirective.button_id d = Some id ->
  String.eqb id "__proto__" = false.
Proof.
  unfold targets_proto. intros H Ha Hin Hid. rewrite Hid, Ha in H.
  destruct Hin as [<- | [<- | [<- | []]]]; exact H.
Qed.

(** On a state of the data model and a typed directive the reducer
    returns. *)
Lemma applyUIDirective_returns (st : value) (S : UIState.t) (d : UIDirective.t) :
  UIState.reads_as st S ->
  targets_proto d = false ->
  exists st', applyUIDirective st (UIDirective.to_value d) = Returns st'.
Proof.
  intros Hst Hproto.
  destruct (reads_as_inv _ _ Hst) as (ps & bs & -> & Hc & Hu & Hbs & Hdec).
  destruct (content_inv _ _ Hc) as [cps Hcps].
  read_directive.
  destruct (String.eqb (UIDirective.action d) "show-content").
  { rewrite opt_chain_props by reflexivity. cbn [bind]. eauto. }
  destruct (String.eqb (UIDirective.action d) "update-content").
  { rewrite !opt_chain_props by reflexivity. cbn [bind].
    rewrite Hcps, !get_prop_obj by reflexivity.
    destruct (nullish (UIDirective.prop d "text")); cbn [bind];
      destruct (nullish (UIDirective.prop d "visible")); cbn [bind]; eauto. }
  destruct (String.eqb (UIDirective.action d) "hide-content"); [eauto|].
  destruct (String.eqb (UIDirective.action d) "show-upload").
  { rewrite !opt_chain_props by reflexivity. cbn [bind]. eauto. }
  destruct (String.eqb (UIDirective.action d) "hide-upload"
            || String.eqb (UIDirective.action d) "cancel-upload"); [eauto|].
  destruct (String.eqb (UIDirective.action d) "show-button") eqn:E6.
  { rewrite opt_chain_props, prop_buttonId by reflexivity. cbn [bind].
    destruct (UIDirective.button_id d) as [id|] eqn:Hid; [|cbn; eauto].
    destruct (truthy (VStr id)); [|eauto].
    rewrite Hbs. cbn [bind to_key].
    rewrite !get_props_value
      by (first [reflexivity | eapply button_id_props; eassumption]).
    cbn [bind].
    rewrite set_prop_obj; [cbn [bind]; eauto|].
    apply String.eqb_eq in E6.
    apply (targets_proto_id d _ id Hproto E6); simpl; auto. }
  destruct (String.eqb (UIDirective.action d) "hide-button") eqn:E7.
  { rewrite opt_chain_props, prop_buttonId by reflexivity. cbn [bind].
    destruct (UIDirective.button_id d) as [id|] eqn:Hid; [|cbn; eauto].
    destruct (truthy (VStr id)); [|eauto].
    rewrite Hbs. cbn [bind to_key].
    apply String.eqb_eq in E7.
    assert (Hne : String.eqb id "__proto__" = false)
      by (apply (targets_proto_id d _ id Hproto E7); simpl; auto).
    destruct (get_button bs _ id Hdec Hne) as [v ->]. cbn [bind].
    destruct (truthy v); [|eauto].
    rewrite set_prop_obj by assumption. cbn [bind]. eauto. }
  destruct (String.eqb (UIDirective.action d) "update-button") eqn:E8.
  { rewrite opt_chain_props, prop_buttonId by reflexivity. cbn [bind].
    destruct (UIDirective.button_id d) as [id|] eqn:Hid; [|cbn; eauto].
    destruct (truthy (VStr id)); [|eauto].
    rewrite Hbs. cbn [bind to_key].
    apply String.eqb_eq in E8.
    assert (Hne : String.eqb id "__proto__" = false)
      by (apply (targets_proto_id d _ id Hproto E8); simpl; auto).
    destruct (get_button bs _ id Hdec Hne) as [v ->]. cbn [bind].
    destruct (truthy v); [|eauto].
    rewrite !get_props_value
      by (first [reflexivity | eapply button_id_props; eassumption]).
    cbn [bind].
    rewrite set_prop_obj by assumption. cbn [bind]. eauto. }
  eauto.
Qed.

(* ================================================================== *)
(** * The reducer *)




(** C9.  Whatever the state was, [reset()] leaves the state of
    [getInitialState()] -- content hidden with empty text, upload hidden and
    idle with accepted types [image/*] and [multiple] false, no button --
    and calls every listener with it. *)
Theorem reset_restores_initial_state (m : UIManager) :
  state (reset m) = getInitialState
  /\ UIState.reads_as (state (reset m)) UIState.initial
  /\ exists calls,
       events (reset m) = (events m ++ calls)%list
       /\ calls = map (fun l => Notified l getInitialState) (listeners m)
       /\ notified calls = listeners m.
Proof.
  split; [reflexivity|]. split; [reflexivity|].
  eexists. split; [reflexivity|]. split; [reflexivity|].
  apply notified_calls.
Qed.

(** C4.  A [state-snapshot] carrying a state of the data model under
    [state.ui] and one carrying it directly under [state] are applied to
    the same effect, from every manager: either way the state becomes the
    state carried and the listeners are called with it. *)
Theorem snapshot_shapes_agree (m : UIManager) (S : UIState.t) :
  applySnapshot m (snapshot_nested (UIState.to_value S))
  = applySnapshot m (snapshot_flat (UIState.to_value S))
  /\ processMessage m (snapshot_nested (UIState.to_value S))
     = processMessage m (snapshot_flat (UIState.to_value S))
  /\ applySnapshot m (snapshot_flat (UIState.to_value S))
     = Returns (notifyListeners (with_state m (UIState.to_value S)))
  /\ UIState.reads_as (UIState.to_value S) S.
Proof.
  split; [reflexivity|]. split; [reflexivity|]. split; [reflexivity|].
  apply reads_as_to_value.
Qed.

(** The same holds of every carried value that has no member [ui] of its
    own, whatever the order of its members. *)
Lemma snapshot_without_ui_member (m : UIManager) (st : value) :
  has_prop "ui" st = false ->
  applySnapshot m (snapshot_nested st) = applySnapshot m (snapshot_flat st)
  /\ applySnapshot m (snapshot_flat st) = Returns (notifyListeners (with_state m st)).
Proof.
  intros H. unfold applySnapshot, snapshot_nested, snapshot_flat.
  cbn [get_prop assoc_get String.eqb Ascii.eqb Bool.eqb bind truthy typeof_object
       has_prop assoc_mem andb].
  rewrite H, !andb_false_r. split; reflexivity.
Qed.

Lemma count_occ_NoDup (ls : list listener) (l : listener) :
  NoDup ls -> In l ls -> count_occ Nat.eq_dec ls l = 1.
Proof.
  intros Hnd Hin.
  apply (proj1 (NoDup_count_occ' Nat.eq_dec ls) Hnd l Hin).
Qed.

(** The listener set holds no callback twice. *)
Lemma set_add_NoDup (l : listener) (ls : list listener) :
  NoDup ls -> NoDup (set_add l ls).
Proof.
  intros H. unfold set_add.
  destruct (existsb (Nat.eqb l) ls) eqn:E; [assumption|].
  apply NoDup_app; [assumption | repeat constructor; intros [] | ].
  intros x Hx Hin. destruct Hin as [Heq|[]]. subst x.
  assert (existsb (Nat.eqb l) ls = true); [|congruence].
  apply existsb_exists. exists l. split; [assumption|apply Nat.eqb_refl].
Qed.

(** C10.  Every call of [applyDirective] on a state of the data model
    returns and calls each subscribed listener exactly once, in the order of
    subscription, with the state the call leaves -- also when the directive
    is one that is ignored and the state is left as it was.  (A button
    directive for the key [__proto__] is given no meaning by the value
    layer.)  Whatever the state and the directive are, a call that returns
    has called each listener exactly once with the state it leaves. *)
Theorem applyDirective_notifies_each_listener (m : UIManager) :
  NoDup (listeners m) ->
  (forall S d,
      UIState.reads_as (state m) S ->
      targets_proto d = false ->
      exists m' calls,
        applyDirective m (UIDirective.to_value d) = Returns m'
        /\ listeners m' = listeners m
        /\ events m' = (events m ++ calls)%list
        /\ calls = map (fun l => Notified l (state m')) (listeners m)
        /\ (forall l, In l (listeners m) -> count_occ Nat.eq_dec (notified calls) l = 1)
        /\ (forall l, ~ In l (listeners m) -> count_occ Nat.eq_dec (notified calls) l = 0)
        /\ (ignored_directive S d -> state m' = state m))
  /\ (forall directive m',
         applyDirective m directive = Returns m' ->
         exists calls,
           listeners m' = listeners m
           /\ events m' = (events m ++ calls)%list
           /\ calls = map (fun l => Notified l (state m')) (listeners m)
           /\ (forall l, In l (listeners m) ->
                         count_occ Nat.eq_dec (notified calls) l = 1)
           /\ (forall l, ~ In l (listeners m) ->
                         count_occ Nat.eq_dec (notified calls) l = 0)).
Proof.
  intros Hnd.
  assert (Hany : forall directive m',
             applyDirective m directive = Returns m' ->
             exists calls,
               listeners m' = listeners m
               /\ events m' = (events m ++ calls)%list
               /\ calls = map (fun l => Notified l (state m')) (listeners m)
               /\ (forall l, In l (listeners m) ->
                             count_occ Nat.eq_dec (notified calls) l = 1)
               /\ (forall l, ~ In l (listeners m) ->
                             count_occ Nat.eq_dec (notified calls) l = 0)).
  { intros directive m'. unfold applyDirective.
    destruct (applyUIDirective (state m) directive) as [st'| |]; try discriminate.
    cbn [bind]. intros H. inversion H; subst m'; clear H.
    exists (map (fun l => Notified l st') (listeners m)).
    rewrite notified_calls. repeat split.
    - intros l Hin. now apply count_occ_NoDup.
    - intros l Hnin. now apply (proj1 (count_occ_not_In Nat.eq_dec _ _)). }
  split; [|exact Hany].
  intros S d Hst Hproto.
  destruct (applyUIDirective_returns _ S d Hst Hproto) as [st' Hret].
  assert (Hcall : applyDirective m (UIDirective.to_value d)
                  = Returns (notifyListeners (with_state m st'))).
  { unfold applyDirective. now rewrite Hret. }
  destruct (Hany _ _ Hcall) as (calls & Hl & Hev & Hcalls & Hin & Hout).
  exists (notifyListeners (with_state m st')), calls.
  repeat split; try assumption.
  intros Hig. cbn. rewrite (applyUIDirective_ignored _ S) in Hret by assumption.
  congruence.
Qed.

Lemma applyDirective_notifies_each_listener_witness :
  let m := subscribe (subscribe (constructor VUndef) 1) 2 in
  exists m' calls,
    applyDirective m
      (UIDirective.to_value (directive "no-such-action" UIDirective.no_props))
    = Returns m'
    /\ events m' = (events m ++ calls)%list
    /\ notified calls = [1; 2]
    /\ state m' = state m.
Proof.
  assert (Hnd : NoDup (listeners (subscribe (subscribe (constructor VUndef) 1) 2)))
    by (repeat constructor; simpl; intuition discriminate).
  destruct (applyDirective_notifies_each_listener
              (subscribe (subscribe (constructor VUndef) 1) 2) Hnd)
    as [Htyped _].
  destruct (Htyped UIState.initial
              (directive "no-such-action" UIDirective.no_props) eq_refl eq_refl)
    as (m' & calls & Hret & _ & Hev & Hcalls & _ & _ & Hsame).
  exists m', calls. repeat split; try assumption.
  - rewrite Hcalls. apply notified_calls.
  - apply Hsame. left. simpl. intuition discriminate.
Defined.

Lemma member_set_same (ps : list (string * value)) (k : string) (v : value) :
  member k (assoc_set k v ps) = v.
Proof. unfold member. now rewrite assoc_get_set_same. Qed.

Lemma member_set_other (ps : list (string * value)) (k k' : string) (v : value) :
  k <> k' -> member k (assoc_set k' v ps) = member k ps.
Proof. intros H. unfold member. now rewrite assoc_get_set_other. Qed.

Ltac read_members :=
  repeat (rewrite member_set_same || rewrite member_set_other by discriminate).

(** What the counterexample shows of [toString] holds of every method of
    [Object.prototype] that names no button of the state: [hide-button]
    finds the method, spreads it, which copies nothing, and assigns an
    object that has [visible] for its one member. *)
Lemma hide_button_finds_method (st : value) (S : UIState.t) (id : string) :
  UIState.reads_as st S ->
  is_method id = true ->
  UIState.button id (UIState.buttons S) = None ->
  exists st' bs',
    applyUIDirective st
      (UIDirective.to_value (directive "hide-button" (button_props id)))
    = Returns st'
    /\ get_prop st' "buttons" = Returns (VObj bs')
    /\ assoc_get id bs' = Some (VObj [("visible", VBool false)]).
Proof.
  intros Hst Hm Hb.
  destruct (reads_as_inv _ _ Hst) as (ps & bs & -> & _ & _ & Hbs & Hdec).
  pose proof (buttons_member bs _ id Hdec) as Hnone. rewrite Hb in Hnone.
  assert (Hid : id <> "") by (intros ->; discriminate Hm).
  assert (Hproto : String.eqb id "__proto__" = false).
  { destruct (String.eqb id "__proto__") eqn:E; [|reflexivity].
    apply String.eqb_eq in E. subst id. discriminate Hm. }
  read_directive. cbn [directive UIDirective.action String.eqb Ascii.eqb Bool.eqb orb].
  rewrite opt_chain_props, prop_buttonId by reflexivity.
  cbn [bind directive button_props UIDirective.button_id UIDirective.props
       UIDirective.buttonId].
  rewrite truthy_string by assumption.
  rewrite Hbs. cbn [bind to_key].
  rewrite (get_prop_missing _ _ Hnone), (inherited_method _ Hm).
  cbn [bind truthy own_props obj_lit fold_left fst snd assoc_set].
  rewrite set_prop_obj by assumption. cbn [bind].
  eexists. eexists. split; [reflexivity|].
  rewrite get_prop_obj, member_set_same by reflexivity.
  split; [reflexivity|apply assoc_get_own_set_same].
Qed.

(** The object [update-button] builds from the properties [bps] of a
    button that reads as [b]. *)
Lemma update_button_object (bps : list (string * value)) (b : ButtonState.t)
  (p : UIDirective.props_t) :
  ButtonState.of_value (VObj bps) = Some b ->
  let d := directive "update-button" p in
  ButtonState.of_value
    (VObj (obj_lit bps
             (own_props (js_and (VBool (negb (strict_eq (UIDirective.prop d "enabled") VUndef)))
                                (VObj [("enabled", UIDirective.prop d "enabled")]))
              ++ own_props (js_and (UIDirective.prop d "buttonLabel")
                                   (VObj [("label", UIDirective.prop d "buttonLabel")]))
              ++ own_props (js_and (UIDirective.prop d "action")
                                   (VObj [("action", UIDirective.prop d "action")]))
              ++ own_props (js_and (UIDirective.prop d "style")
                                   (VObj [("style", UIDirective.prop d "style")])))))
  = Some (update_button b p).
Proof.
  intros Hb.
  destruct (button_inv _ _ Hb) as (ps & Heq & Hv & He & Hl & Ha & Hs).
  inversion Heq; subst ps; clear Heq.
  destruct p as [t vi ac mu ul bid blab en pa sty].
  unfold update_button, directive, UIDirective.prop, ButtonState.of_value.
  cbn [UIDirective.props UIDirective.props_fields field_get String.eqb Ascii.eqb
       Bool.eqb UIDirective.text UIDirective.visible UIDirective.accept
       UIDirective.multiple UIDirective.uploadLabel UIDirective.buttonId
       UIDirective.buttonLabel UIDirective.enabled UIDirective.paction
       UIDirective.style].
  destruct en as [en|], blab as [[|c1 l1]|], pa as [[|c2 l2]|], sty as [[]|];
    cbn [option_map strict_eq negb js_and truthy own_props app obj_lit fold_left
         fst snd String.eqb ButtonState.style_name Ascii.eqb Bool.eqb
         indexed_from map chars];
    read_members; rewrite ?Hv, ?He, ?Hl, ?Ha, ?Hs; reflexivity.
Qed.

(** C3, as the code has it.  On a state holding [buttons[id]], for a
    non-empty [id], [update-button] with [buttonId = id] returns a state
    whose [buttons[id]] takes [enabled] from the props when it is present,
    and [label], [action] and [style] from [buttonLabel], [action] and
    [style] when they are present and not empty; every other member of the
    button, every other button, the content and the upload are as
    before. *)
Theorem update_button_merges_present_nonempty_fields
  (st : value) (S : UIState.t) (id : string) (b : ButtonState.t)
  (p : UIDirective.props_t) :
  UIState.reads_as st S ->
  id <> "" ->
  UIState.button id (UIState.buttons S) = Some b ->
  UIDirective.buttonId p = Some id ->
  exists st' bs bs',
    applyUIDirective st (UIDirective.to_value (directive "update-button" p))
    = Returns st'
    /\ get_prop st "buttons" = Returns (VObj bs)
    /\ get_prop st' "buttons" = Returns (VObj bs')
    /\ lookup_button id bs' = Some (update_button b p)
    /\ (forall id', id' <> id -> assoc_get id' bs' = assoc_get id' bs)
    /\ get_prop st' "content" = get_prop st "content"
    /\ get_prop st' "mediaUpload" = get_prop st "mediaUpload".
Proof.
  intros Hst Hid Hb Hp.
  destruct (reads_as_inv _ _ Hst) as (ps & bs & -> & Hc & Hu & Hbs & Hdec).
  pose proof (buttons_member bs _ id Hdec) as Hm. rewrite Hb in Hm.
  destruct Hm as (v & Hget & Hv).
  destruct (button_inv _ _ Hv) as (bps & -> & _).
  assert (Hbid : UIDirective.button_id (directive "update-button" p) = Some id)
    by exact Hp.
  read_directive. cbn [directive UIDirective.action String.eqb Ascii.eqb Bool.eqb orb].
  rewrite opt_chain_props, prop_buttonId, Hbid by reflexivity. cbn [bind].
  rewrite truthy_string by assumption.
  rewrite Hbs. cbn [bind to_key]. rewrite (get_prop_own _ _ _ Hget).
  cbn [bind truthy own_props].
  rewrite !get_props_value by (first [reflexivity | discriminate]).
  cbn [bind]. rewrite (set_prop_own _ _ _ _ Hget). cbn [bind].
  eexists. exists bs. eexists. split; [reflexivity|].
  rewrite !get_prop_obj by reflexivity.
  split; [rewrite ?Hbs; reflexivity|].
  split; [now rewrite member_set_same|].
  split.
  { unfold lookup_button. rewrite assoc_get_set_same.
    now apply update_button_object. }
  split.
  { intros id' Hne. now apply assoc_get_set_other. }
  now rewrite !member_set_other by discriminate.
Qed.

Lemma upload_inv (v : value) (u : MediaUploadState.t) :
  MediaUploadState.of_value v = Some u ->
  exists ps,
    v = VObj ps
    /\ as_bool (member "visible" ps) = Some (MediaUploadState.visible u)
    /\ MediaUploadState.as_status (member "status" ps) = Some (MediaUploadState.status u)
    /\ optional MediaUploadState.as_types (member "acceptedTypes" ps)
       = Some (MediaUploadState.acceptedTypes u)
    /\ optional as_bool (member "multiple" ps) = Some (MediaUploadState.multiple u)
    /\ optional as_string (member "label" ps) = Some (MediaUploadState.label u).
Proof.
  destruct v as [| | | | | |ps|]; try discriminate. cbn [MediaUploadState.of_value].
  destruct (as_bool (member "visible" ps)) eqn:E1; [|discriminate].
  destruct (MediaUploadState.as_status (member "status" ps)) eqn:E2; [|discriminate].
  destruct (optional MediaUploadState.as_types (member "acceptedTypes" ps)) eqn:E3;
    [|discriminate].
  destruct (optional as_bool (member "multiple" ps)) eqn:E4; [|discriminate].
  destruct (optional as_string (member "label" ps)) eqn:E5; [|discriminate].
  intros H. inversion H; subst. simpl.
  exists ps. repeat split; assumption.
Qed.




Lemma update_button_merges_present_nonempty_fields_witness :
  exists st' bs',
    applyUIDirective confirm_state
      (UIDirective.to_value (directive "update-button" disable_props))
    = Returns st'
    /\ get_prop st' "buttons" = Returns (VObj bs')
    /\ lookup_button "confirm" bs'
       = Some {| ButtonState.visible := true; ButtonState.enabled := false;
                 ButtonState.label := Some "OK";
                 ButtonState.action := Some "confirm-order";
                 ButtonState.style := Some ButtonState.primary |}.
Proof.
  destruct (update_button_merges_present_nonempty_fields
              confirm_state with_confirm "confirm" confirm_button disable_props)
    as (st' & bs & bs' & Hret & _ & Hbs' & Hb & _).
  - reflexivity.
  - discriminate.
  - reflexivity.
  - reflexivity.
  - exists st', bs'. repeat split; assumption.
Defined.

(** The counterexample to C3 as it is stated: [buttonLabel] is present in
    the props, as the empty string, and is not merged into [label]. *)
Lemma update_button_counterexample :
  exists st' bs',
    applyUIDirective confirm_state
      (UIDirective.to_value (directive "update-button" empty_label_props))
    = Returns st'
    /\ get_prop st' "buttons" = Returns (VObj bs')
    /\ lookup_button "confirm" bs' = Some confirm_button
    /\ lookup_button "confirm" bs'
       <> Some (merge_present_fields confirm_button empty_label_props).
Proof.
  eexists. eexists. split; [reflexivity|]. split; [reflexivity|].
  split; [reflexivity|]. discriminate.
Qed.



(** ** The states of the data model are closed under typed directives *)

Lemma buttons_of_props_set (bs : list (string * value))
  (tbs : list (string * ButtonState.t)) (id : string) (v : value) (b : ButtonState.t) :
  UIState.buttons_of_props bs = Some tbs ->
  ButtonState.of_value v = Some b ->
  UIState.buttons_of_props (assoc_set id v bs) = Some (assoc_set id b tbs).
Proof.
  intros Hbs Hv. revert tbs Hbs.
  induction bs as [|[k x] bs IH]; intros tbs; simpl.
  - intros H. inversion H. simpl. now rewrite Hv.
  - destruct (ButtonState.of_value x) as [bx|] eqn:Ex; [|discriminate].
    destruct (UIState.buttons_of_props bs) as [r|] eqn:Er; [|discriminate].
    intros H. inversion H; subst. simpl.
    destruct (String.eqb id k); simpl.
    + now rewrite Hv, Er.
    + now rewrite Ex, (IH r eq_refl).
Qed.

Lemma buttons_of_props_insert (bs : list (string * value))
  (tbs : list (string * ButtonState.t)) (i : nat) (id : string) (v : value)
  (b : ButtonState.t) :
  UIState.buttons_of_props bs = Some tbs ->
  ButtonState.of_value v = Some b ->
  UIState.buttons_of_props (insert_index i id v bs) = Some (insert_index i id b tbs).
Proof.
  intros Hbs Hv. revert tbs Hbs.
  induction bs as [|[k x] bs IH]; intros tbs; simpl.
  - intros H. inversion H. simpl. now rewrite Hv.
  - destruct (ButtonState.of_value x) as [bx|] eqn:Ex; [|discriminate].
    destruct (UIState.buttons_of_props bs) as [r|] eqn:Er; [|discriminate].
    intros H. inversion H; subst. simpl.
    destruct (array_index k) as [j|]; [destruct (Nat.ltb j i)|]; simpl.
    + now rewrite Ex, (IH r eq_refl).
    + now rewrite Hv, Ex, Er.
    + now rewrite Hv, Ex, Er.
Qed.

Lemma button_assoc_get (id : string) (tbs : list (string * ButtonState.t)) :
  UIState.button id tbs = assoc_get id tbs.
Proof. induction tbs as [|[k b] tbs IH]; simpl; [|rewrite IH]; reflexivity. Qed.

Lemma buttons_of_props_own_set (bs : list (string * value))
  (tbs : list (string * ButtonState.t)) (id : string) (v : value) (b : ButtonState.t) :
  UIState.buttons_of_props bs = Some tbs ->
  ButtonState.of_value v = Some b ->
  UIState.buttons_of_props (own_set id v bs) = Some (own_set id b tbs).
Proof.
  intros Hbs Hv. pose proof (buttons_member bs tbs id Hbs) as Hm.
  rewrite button_assoc_get in Hm. unfold own_set.
  destruct (assoc_get id tbs) as [b0|].
  - destruct Hm as (v0 & -> & _). now apply buttons_of_props_set.
  - rewrite Hm. destruct (array_index id).
    + now apply buttons_of_props_insert.
    + now apply buttons_of_props_set.
Qed.

Lemma reads_as_set_content (ps : list (string * value)) (S : UIState.t)
  (c : value) (tc : ContentState.t) :
  UIState.reads_as (VObj ps) S ->
  ContentState.of_value c = Some tc ->
  UIState.reads_as (VObj (assoc_set "content" c ps))
    {| UIState.content := tc; UIState.mediaUpload := UIState.mediaUpload S;
       UIState.buttons := UIState.buttons S |}.
Proof.
  intros Hst Hc.
  destruct (reads_as_inv _ _ Hst) as (ps' & bs & Heq & _ & Hu & Hbs & Hdec).
  inversion Heq; subst ps'.
  unfold UIState.reads_as, UIState.of_value.
  rewrite member_set_same, !member_set_other by discriminate.
  now rewrite Hc, Hu, Hbs, Hdec.
Qed.

Lemma reads_as_set_mediaUpload (ps : list (string * value)) (S : UIState.t)
  (u : value) (tu : MediaUploadState.t) :
  UIState.reads_as (VObj ps) S ->
  MediaUploadState.of_value u = Some tu ->
  UIState.reads_as (VObj (assoc_set "mediaUpload" u ps))
    {| UIState.content := UIState.content S; UIState.mediaUpload := tu;
       UIState.buttons := UIState.buttons S |}.
Proof.
  intros Hst Hu'.
  destruct (reads_as_inv _ _ Hst) as (ps' & bs & Heq & Hc & _ & Hbs & Hdec).
  inversion Heq; subst ps'.
  unfold UIState.reads_as, UIState.of_value.
  rewrite member_set_same, !member_set_other by discriminate.
  now rewrite Hc, Hu', Hbs, Hdec.
Qed.

Lemma reads_as_set_button (ps bs : list (string * value)) (S : UIState.t)
  (id : string) (v : value) (b : ButtonState.t) :
  UIState.reads_as (VObj ps) S ->
  member "buttons" ps = VObj bs ->
  ButtonState.of_value v = Some b ->
  UIState.reads_as (VObj (assoc_set "buttons" (VObj (assoc_set id v bs)) ps))
    {| UIState.content := UIState.content S;
       UIState.mediaUpload := UIState.mediaUpload S;
       UIState.buttons := assoc_set id b (UIState.buttons S) |}.
Proof.
  intros Hst Hbs Hv.
  destruct (reads_as_inv _ _ Hst) as (ps' & bs' & Heq & Hc & Hu & Hbs' & Hdec).
  inversion Heq; subst ps'. rewrite Hbs in Hbs'. inversion Hbs'; subst bs'.
  unfold UIState.reads_as, UIState.of_value.
  rewrite member_set_same, !member_set_other by discriminate.
  rewrite Hc, Hu. now rewrite (buttons_of_props_set _ _ _ _ _ Hdec Hv).
Qed.

Lemma reads_as_new_button (ps bs : list (string * value)) (S : UIState.t)
  (id : string) (v : value) (b : ButtonState.t) :
  UIState.reads_as (VObj ps) S ->
  member "buttons" ps = VObj bs ->
  ButtonState.of_value v = Some b ->
  UIState.reads_as (VObj (assoc_set "buttons" (VObj (own_set id v bs)) ps))
    {| UIState.content := UIState.content S;
       UIState.mediaUpload := UIState.mediaUpload S;
       UIState.buttons := own_set id b (UIState.buttons S) |}.
Proof.
  intros Hst Hbs Hv.
  destruct (reads_as_inv _ _ Hst) as (ps' & bs' & Heq & Hc & Hu & Hbs' & Hdec).
  inversion Heq; subst ps'. rewrite Hbs in Hbs'. inversion Hbs'; subst bs'.
  unfold UIState.reads_as, UIState.of_value.
  rewrite member_set_same, !member_set_other by discriminate.
  rewrite Hc, Hu. now rewrite (buttons_of_props_own_set _ _ _ _ _ Hdec Hv).
Qed.

Lemma content_inv_members (v : value) (c : ContentState.t) :
  ContentState.of_value v = Some c ->
  exists ps,
    v = VObj ps
    /\ optional as_string (member "text" ps) = Some (ContentState.text c)
    /\ as_bool (member "visible" ps) = Some (ContentState.visible c).
Proof.
  destruct v as [| | | | | |ps|]; try discriminate. cbn [ContentState.of_value].
  destruct (optional as_string (member "text" ps)) eqn:E1; [|discriminate].
  destruct (as_bool (member "visible" ps)) eqn:E2; [|discriminate].
  intros H. inversion H; subst. exists ps. repeat split; assumption.
Qed.

(** A typed directive takes a state of the data model to a state of the
    data model, provided it names no button by a name [Object.prototype]
    has a member for: the statements about every such state cover every
    state that such directives, resets and typed snapshots lead to. *)
Lemma applyUIDirective_keeps_typing (st : value) (S : UIState.t) (d : UIDirective.t) :
  UIState.reads_as st S ->
  names_inherited d = false ->
  exists st' S',
    applyUIDirective st (UIDirective.to_value d) = Returns st'
    /\ UIState.reads_as st' S'.
Proof.
  intros Hst Hplain.
  destruct (reads_as_inv _ _ Hst) as (ps & bs & -> & Hc & Hu & Hbs & Hdec).
  destruct (content_inv_members _ _ Hc) as (cps & Hcps & Hct & Hcv).
  destruct (upload_inv _ _ Hu) as (ups & Hups & Huv & Hus & Hut & Hum & Hul).
  destruct d as [a p c]. unfold names_inherited in Hplain.
  read_directive. cbn [UIDirective.action].
  destruct (String.eqb a "show-content").
  { rewrite opt_chain_props by reflexivity. cbn [bind].
    unfold UIDirective.prop. cbn [UIDirective.props].
    destruct p as [[[[|ch t]|] vi ac mu ul bid blab en pa sty]|];
      (eexists; eexists; split; [reflexivity|]);
      (eapply reads_as_set_content; [exact Hst|reflexivity]). }
  destruct (String.eqb a "update-content").
  { rewrite !opt_chain_props by reflexivity. cbn [bind]. rewrite Hcps, !get_prop_obj by reflexivity.
    unfold UIDirective.prop. cbn [UIDirective.props].
    destruct p as [[t vi ac mu ul bid blab en pa sty]|];
      [destruct t as [t|], vi as [vi|]|];
      cbn [UIDirective.props_fields field_get String.eqb Ascii.eqb Bool.eqb
           option_map nullish bind own_props];
      (eexists; eexists; split; [reflexivity|]);
      (eapply reads_as_set_content; [exact Hst|]);
      unfold ContentState.of_value; cbn [obj_lit fold_left fst snd]; read_members;
      rewrite ?Hct, ?Hcv; reflexivity. }
  destruct (String.eqb a "hide-content").
  { rewrite Hcps. eexists. eexists. split; [reflexivity|].
    eapply reads_as_set_content; [exact Hst|].
    unfold ContentState.of_value. cbn [own_props obj_lit fold_left fst snd].
    read_members. rewrite Hct. reflexivity. }
  destruct (String.eqb a "show-upload").
  { rewrite !opt_chain_props by reflexivity. cbn [bind].
    unfold UIDirective.prop. cbn [UIDirective.props].
    destruct p as [[t vi [[|ch ac]|] [mu|] [ul|] bid blab en pa sty]|];
      (eexists; eexists; split; [reflexivity|]);
      (eapply reads_as_set_mediaUpload; [exact Hst|reflexivity]). }
  destruct (String.eqb a "hide-upload" || String.eqb a "cancel-upload").
  { rewrite Hups. eexists. eexists. split; [reflexivity|].
    eapply reads_as_set_mediaUpload; [exact Hst|].
    unfold MediaUploadState.of_value. cbn [own_props obj_lit fold_left fst snd].
    read_members. rewrite Hut, Hum, Hul. reflexivity. }
  destruct (String.eqb a "show-button").
  { rewrite opt_chain_props, prop_buttonId by reflexivity. cbn [bind].
    destruct p as [[t vi ac mu ul [id|] blab en pa sty]|];
      cbn [UIDirective.button_id UIDirective.props UIDirective.buttonId] in *;
      [|eexists; eexists; split; [reflexivity|exact Hst]..].
    destruct (truthy (VStr id)); [|eexists; eexists; split; [reflexivity|exact Hst]].
    rewrite Hbs. cbn [bind to_key].
    rewrite !get_props_value by (first [reflexivity | discriminate]).
    cbn [bind]. rewrite set_prop_obj by now apply inherited_name_proto.
    cbn [bind]. unfold UIDirective.prop. cbn [UIDirective.props].
    destruct en as [en|], blab as [blab|], pa as [pa|], sty as [[]|];
      (eexists; eexists; split; [reflexivity|]);
      (eapply reads_as_new_button; [exact Hst|exact Hbs|reflexivity]). }
  destruct (String.eqb a "hide-button").
  { rewrite opt_chain_props, prop_buttonId by reflexivity. cbn [bind].
    destruct p as [[t vi ac mu ul [id|] blab en pa sty]|];
      cbn [UIDirective.button_id UIDirective.props UIDirective.buttonId] in *;
      [|eexists; eexists; split; [reflexivity|exact Hst]..].
    destruct (truthy (VStr id)); [|eexists; eexists; split; [reflexivity|exact Hst]].
    rewrite Hbs. cbn [bind to_key]. rewrite get_prop_obj by assumption. cbn [bind].
    pose proof (buttons_member bs _ id Hdec) as Hm. unfold member.
    destruct (UIState.button id (UIState.buttons S)) as [b|].
    - destruct Hm as (v & Hget & Hv). rewrite Hget.
      destruct (button_inv _ _ Hv) as (bps & -> & Hbv & Hbe & Hbl & Hba & Hbsty).
      cbn [truthy bind own_props]. rewrite (set_prop_own _ _ _ _ Hget). cbn [bind].
      eexists. eexists. split; [reflexivity|].
      eapply reads_as_set_button; [exact Hst|exact Hbs|].
      unfold ButtonState.of_value. cbn [obj_lit fold_left fst snd]. read_members.
      rewrite Hbe, Hbl, Hba, Hbsty. reflexivity.
    - rewrite Hm. eexists. eexists. split; [reflexivity|exact Hst]. }
  destruct (String.eqb a "update-button").
  { rewrite opt_chain_props, prop_buttonId by reflexivity. cbn [bind].
    destruct p as [[t vi ac mu ul [id|] blab en pa sty]|];
      cbn [UIDirective.button_id UIDirective.props UIDirective.buttonId] in *;
      [|eexists; eexists; split; [reflexivity|exact Hst]..].
    destruct (truthy (VStr id)); [|eexists; eexists; split; [reflexivity|exact Hst]].
    rewrite Hbs. cbn [bind to_key]. rewrite get_prop_obj by assumption. cbn [bind].
    pose proof (buttons_member bs _ id Hdec) as Hm. unfold member.
    destruct (UIState.button id (UIState.buttons S)) as [b|].
    - destruct Hm as (v & Hget & Hv). rewrite Hget.
      destruct (button_inv _ _ Hv) as (bps & -> & _).
      cbn [truthy bind].
      rewrite !get_props_value by (first [reflexivity | discriminate]).
      cbn [bind own_props]. rewrite (set_prop_own _ _ _ _ Hget). cbn [bind].
      eexists. eexists. split; [reflexivity|].
      eapply reads_as_set_button; [exact Hst|exact Hbs|].
      apply (update_button_object bps b _ Hv).
    - rewrite Hm. eexists. eexists. split; [reflexivity|exact Hst]. }
  eexists. eexists. split; [reflexivity|exact Hst].
Qed.

Lemma directives_keep_typing (ds : list UIDirective.t) (st : value) (S : UIState.t) :
  UIState.reads_as st S ->
  Forall (fun d => names_inherited d = false) ds ->
  exists st' S',
    apply_directives st (map UIDirective.to_value ds) = Returns st'
    /\ UIState.reads_as st' S'.
Proof.
  intros Hst Hds. revert st S Hst.
  induction Hds as [|d ds Hd Hds IH]; intros st S Hst; simpl.
  - eauto.
  - destruct (applyUIDirective_keeps_typing st S d Hst Hd) as (st1 & S1 & Hret & Hst1).
    rewrite Hret. cbn [bind]. now apply (IH st1 S1).
Qed.

(* ================================================================== *)
(** * State deltas *)


(** A batch is run patch by patch: the patches after a position run on the
    state the patches before it left. *)
Lemma apply_patches_app (pre post : list value) (st : value) :
  apply_patches (pre ++ post) st
  = ('(st1, w1) <- apply_patches pre st ;;
     '(st2, w2) <- apply_patches post st1 ;;
     Returns (st2, (w1 ++ w2)%list)).
Proof.
  revert st. induction pre as [|patch pre IH]; intros st; simpl.
  - destruct (apply_patches post st) as [[st2 w2]| |]; reflexivity.
  - destruct (apply_patch st patch) as [[st1 w1]| |]; simpl; [|reflexivity..].
    rewrite IH.
    destruct (apply_patches pre st1) as [[st2 w2]| |]; simpl; [|reflexivity..].
    destruct (apply_patches post st2) as [[st3 w3]| |]; simpl; [|reflexivity..].
    now rewrite app_assoc.
Qed.

Lemma state_of_navigate {A B : Type} (parents : list string)
  (leaf1 : value -> outcome (value * A)) (leaf2 : value -> outcome (value * B)) :
  (forall current, state_of (leaf1 current) = state_of (leaf2 current)) ->
  forall current,
    state_of (navigate parents leaf1 current) = state_of (navigate parents leaf2 current).
Proof.
  intros Hleaf. induction parents as [|p rest IH]; intros current; simpl.
  - apply Hleaf.
  - destruct (get_prop current p) as [child| |]; simpl; [|reflexivity..].
    destruct (if truthy child then Returns current else set_prop current p (VObj []))
      as [current1| |]; simpl; [|reflexivity..].
    destruct (get_prop current1 p) as [child1| |]; simpl; [|reflexivity..].
    specialize (IH child1).
    destruct child1; try reflexivity;
      (destruct (navigate rest leaf1 _) as [[c1 a1]| |],
                (navigate rest leaf2 _) as [[c2 a2]| |];
       simpl in *; congruence).
Qed.

(** The path of an operation is used twice: its segments say where the
    operation applies, its text goes into the warning of a failed test.
    The state an operation leaves depends on the segments only. *)
Lemma state_of_apply_op (op v : value) (path1 path2 : string) (current : value)
  (key : string) :
  state_of (apply_op op v path1 current key) = state_of (apply_op op v path2 current key).
Proof.
  unfold apply_op.
  destruct (is_action op "add" || is_action op "replace"); [reflexivity|].
  destruct (is_action op "remove"); [reflexivity|].
  destruct (is_action op "move" || is_action op "copy"); [reflexivity|].
  destruct (is_action op "test"); [|reflexivity].
  destruct (get_prop current key) as [found| |]; simpl; [|reflexivity..].
  now destruct (negb (strict_eq found v)).
Qed.

Lemma state_of_apply_patch (op v : value) (path1 path2 : string) (st : value) :
  pathParts path1 = pathParts path2 ->
  state_of (apply_patch st (patch_op op path1 v))
  = state_of (apply_patch st (patch_op op path2 v)).
Proof.
  intros Hparts. unfold apply_patch, patch_op.
  cbn [get_prop assoc_get String.eqb Ascii.eqb Bool.eqb bind].
  rewrite Hparts. apply state_of_navigate.
  intros current. apply state_of_apply_op.
Qed.

Lemma state_of_apply_patches (pre post : list value) (patch1 patch2 : value) (st : value) :
  (forall st1, state_of (apply_patch st1 patch1) = state_of (apply_patch st1 patch2)) ->
  state_of (apply_patches (pre ++ patch1 :: post) st)
  = state_of (apply_patches (pre ++ patch2 :: post) st).
Proof.
  intros Hpatch. rewrite !apply_patches_app.
  destruct (apply_patches pre st) as [[st1 w1]| |]; simpl; [|reflexivity..].
  specialize (Hpatch st1).
  destruct (apply_patch st1 patch1) as [[s1 x1]| |],
           (apply_patch st1 patch2) as [[s2 x2]| |];
    simpl in *; try congruence.
  inversion Hpatch; subst s2.
  destruct (apply_patches post s1) as [[s3 w3]| |]; reflexivity.
Qed.

Lemma state_of_applyStateDelta (pre post : list value) (patch1 patch2 : value) (st : value) :
  (forall st1, state_of (apply_patch st1 patch1) = state_of (apply_patch st1 patch2)) ->
  state_of (applyStateDelta st (state_delta (pre ++ patch1 :: post)))
  = state_of (applyStateDelta st (state_delta (pre ++ patch2 :: post))).
Proof.
  intros Hpatch. unfold applyStateDelta, state_delta.
  destruct (json_roundtrip st) as [newState| |]; [|reflexivity..].
  cbn [bind get_prop assoc_get String.eqb Ascii.eqb Bool.eqb iterate].
  now apply state_of_apply_patches.
Qed.

Lemma manager_state_applyDelta (m : UIManager) (delta1 delta2 : value) :
  state_of (applyStateDelta (state m) delta1) = state_of (applyStateDelta (state m) delta2) ->
  manager_state (applyDelta m delta1) = manager_state (applyDelta m delta2).
Proof.
  unfold applyDelta.
  destruct (applyStateDelta (state m) delta1) as [[s1 w1]| |],
           (applyStateDelta (state m) delta2) as [[s2 w2]| |];
    simpl; congruence.
Qed.

Lemma pathParts_ui (rest : string) : pathParts ("/ui/" ++ rest) = segments rest.
Proof. reflexivity. Qed.

Lemma pathParts_slash (rest : string) :
  pathParts ("/" ++ rest)
  = match segments rest with
    | first :: others => if String.eqb first "ui" then others else segments rest
    | [] => []
    end.
Proof. unfold pathParts, segments. cbn. now destruct (filter _ _). Qed.

(** A path under [/ui] and the same path without [/ui] have the same
    segments, unless the path itself starts with a segment [ui]. *)
Lemma pathParts_ui_prefix (rest : string) :
  hd_error (segments rest) <> Some "ui" ->
  pathParts ("/ui/" ++ rest) = pathParts ("/" ++ rest).
Proof.
  intros H. rewrite pathParts_ui, pathParts_slash.
  destruct (segments rest) as [|first others]; [reflexivity|].
  destruct (String.eqb first "ui") eqn:E; [|reflexivity].
  apply String.eqb_eq in E. subst first. now elim H.
Qed.

(** C5, as the code has it.  From every state and for every operation and
    value, a [state-delta] addressing [/ui/mediaUpload/visible] and one
    addressing [/mediaUpload/visible] leave the same state.  In general the
    path is split at [/], the empty segments are dropped and one leading
    [ui] segment is removed: a path [/ui/rest] leaves the state the path
    [/rest] leaves, anywhere in a batch, provided [rest] does not itself
    begin with a segment [ui]. *)
Theorem ui_prefix_is_stripped_once (m : UIManager) (op v : value) :
  manager_state (applyDelta m (state_delta [patch_op op "/ui/mediaUpload/visible" v]))
  = manager_state (applyDelta m (state_delta [patch_op op "/mediaUpload/visible" v]))
  /\ (forall rest, pathParts ("/ui/" ++ rest) = segments rest)
  /\ (forall rest pre post,
         hd_error (segments rest) <> Some "ui" ->
         manager_state
           (applyDelta m (state_delta (pre ++ patch_op op ("/ui/" ++ rest) v :: post)))
         = manager_state
             (applyDelta m (state_delta (pre ++ patch_op op ("/" ++ rest) v :: post)))).
Proof.
  split; [|split].
  - apply manager_state_applyDelta.
    apply (state_of_applyStateDelta [] []).
    intros st1. now apply state_of_apply_patch.
  - apply pathParts_ui.
  - intros rest pre post Hrest.
    apply manager_state_applyDelta, state_of_applyStateDelta.
    intros st1. apply state_of_apply_patch. now apply pathParts_ui_prefix.
Qed.

Lemma ui_prefix_is_stripped_once_witness :
  let m := constructor VUndef in
  manager_state
    (applyDelta m (state_delta [patch_op (VStr "replace") "/ui/content/text" (VStr "hi")]))
  = manager_state
      (applyDelta m (state_delta [patch_op (VStr "replace") "/content/text" (VStr "hi")])).
Proof.
  destruct (ui_prefix_is_stripped_once (constructor VUndef) (VStr "replace") (VStr "hi"))
    as (_ & _ & H).
  apply (H "content/text" [] []).
  vm_compute. discriminate.
Defined.

(** The counterexample to C5 as it is stated: [/ui/ui/x] has the [ui]
    prefix, [/ui/x] is the same path without it, and the two do not leave
    the same state. *)
Lemma ui_prefix_counterexample :
  manager_state
    (applyDelta (constructor VUndef)
       (state_delta [patch_op (VStr "add") "/ui/ui/x" (VNum 1)]))
  <> manager_state
       (applyDelta (constructor VUndef)
          (state_delta [patch_op (VStr "add") "/ui/x" (VNum 1)])).
Proof. vm_compute. discriminate. Qed.

(** A [test] is the walk to the parent of its target and one reading
    there. *)
Lemma navigate_test (v : value) (path key : string) (parents : list string) :
  forall st,
    navigate parents (fun current => apply_op (VStr "test") v path current key) st
    = ('(st', parent) <- walk parents st ;;
       found <- get_prop parent key ;;
       Returns (st', if negb (strict_eq found v) then [test_failed path] else [])).
Proof.
  unfold walk. induction parents as [|p rest IH]; intros st.
  - cbn [navigate bind]. unfold apply_op.
    cbn [is_action strict_eq String.eqb Ascii.eqb Bool.eqb orb].
    destruct (get_prop st key) as [found| |]; [|reflexivity..].
    cbn [bind]. now destruct (negb (strict_eq found v)).
  - cbn [navigate].
    destruct (get_prop st p) as [child| |]; [|reflexivity..]. cbn [bind].
    destruct (if truthy child then Returns st else set_prop st p (VObj []))
      as [current1| |]; [|reflexivity..].
    cbn [bind].
    destruct (get_prop current1 p) as [child1| |]; [|reflexivity..]. cbn [bind].
    destruct child1; try reflexivity; rewrite IH;
      (destruct (navigate rest (fun current => Returns (current, current)) _)
         as [[child2 parent]| |]; [|reflexivity..]);
      cbn [bind];
      (destruct (get_prop parent key) as [found| |]; reflexivity).
Qed.

Lemma apply_patch_test (patch : value) (path : string) (v st : value) :
  is_patch patch (VStr "test") path v ->
  apply_patch st patch
  = navigate (parents_of path)
      (fun current => apply_op (VStr "test") v path current (key_of path)) st.
Proof.
  intros (Hop & Hpath & Hv). unfold apply_patch.
  rewrite Hpath. cbn [bind]. now rewrite Hop, Hv.
Qed.

(** Wherever the walk to its parent returns, a [test] that finds another
    value returns too, with the state the walk leaves and one warning. *)
Lemma failed_test_patch (patch : value) (path : string) (v st st' parent found : value) :
  is_patch patch (VStr "test") path v ->
  walk (parents_of path) st = Returns (st', parent) ->
  get_prop parent (key_of path) = Returns found ->
  strict_eq found v = false ->
  apply_patch st patch = Returns (st', [test_failed path]).
Proof.
  intros Hpatch Hwalk Hget Hne.
  rewrite (apply_patch_test patch path v st Hpatch), navigate_test, Hwalk.
  cbn [bind]. rewrite Hget. cbn [bind]. now rewrite Hne.
Qed.

(** The walk through members that are there creates nothing. *)
Lemma descend_walk (parents : list string) :
  forall st parent,
    descend parents st = Some parent -> walk parents st = Returns (st, parent).
Proof.
  unfold walk. induction parents as [|p rest IH]; intros st parent.
  - cbn [descend navigate]. intros H. now inversion H.
  - cbn [descend]. destruct st as [| | | | | |ps|]; try discriminate.
    destruct (assoc_get p ps) as [[| | | | | |cps|]|] eqn:Hget; try discriminate.
    intros Hrest. cbn [navigate].
    rewrite (get_prop_own _ _ _ Hget). cbn [bind truthy].
    rewrite (get_prop_own _ _ _ Hget). cbn [bind].
    rewrite (IH _ _ Hrest). cbn [bind write_back].
    now rewrite (assoc_set_same_value ps p (VObj cps)).
Qed.

Lemma json_copy_props_undef (k : string) (x : value) (ps : list (string * value)) :
  json_kept x = false ->
  json_copy_props ((k, x) :: ps) = json_copy_props ps.
Proof. intros H. unfold json_copy_props. cbn [json_copy]. now rewrite H. Qed.

(** A member that [JSON.stringify] writes is found in the copy, copied. *)
Lemma member_json_copy_props (k : string) (ps : list (string * value)) :
  json_kept (member k ps) = true ->
  member k (json_copy_props ps) = json_copy (member k ps).
Proof.
  unfold member. induction ps as [|[k' x] ps IH]; [discriminate|].
  cbn [assoc_get]. destruct (String.eqb k k') eqn:E; intros Hx.
  - rewrite json_copy_props_cons by assumption. cbn [assoc_get]. now rewrite E.
  - destruct (json_kept x) eqn:Hk.
    + rewrite json_copy_props_cons by assumption. cbn [assoc_get]. rewrite E.
      now apply IH.
    + rewrite json_copy_props_undef by assumption. now apply IH.
Qed.

Lemma member_found (k : string) (ps cps : list (string * value)) :
  member k ps = VObj cps -> assoc_get k ps = Some (VObj cps).
Proof.
  unfold member. destruct (assoc_get k ps); [now intros ->|discriminate].
Qed.

Lemma navigate_one {A : Type} (k : string) (ps cps : list (string * value))
  (leaf : value -> outcome (value * A)) :
  member k ps = VObj cps ->
  navigate [k] leaf (VObj ps)
  = ('(c, a) <- leaf (VObj cps) ;; Returns (VObj (assoc_set k c ps), a)).
Proof.
  intros H. apply member_found in H. cbn [navigate].
  rewrite (get_prop_own _ _ _ H). cbn [bind truthy].
  rewrite (get_prop_own _ _ _ H). reflexivity.
Qed.

Lemma member_own_set_same (ps : list (string * value)) (k : string) (v : value) :
  member k (own_set k v ps) = v.
Proof. unfold member. now rewrite assoc_get_own_set_same. Qed.

Lemma member_own_set_other (ps : list (string * value)) (k k' : string) (v : value) :
  k <> k' -> member k (own_set k' v ps) = member k ps.
Proof. intros H. unfold member. now rewrite assoc_get_own_set_other. Qed.

(** The example of C6 on every value that reads as a state with hidden
    content. *)
Lemma failed_test_example (st : value) (S : UIState.t) :
  UIState.reads_as st S ->
  ContentState.visible (UIState.content S) = false ->
  exists st' content,
    applyStateDelta st
      (state_delta [patch_op (VStr "test") "/content/visible" (VBool true);
                    patch_op (VStr "replace") "/content/text" (VStr "X")])
    = Returns (st', [test_failed "/content/visible"])
    /\ get_prop st' "content" = Returns content
    /\ get_prop content "text" = Returns (VStr "X")
    /\ get_prop content "visible" = Returns (VBool false).
Proof.
  intros Hst Hvis.
  destruct (reads_as_inv _ _ Hst) as (ps & bs & -> & Hc & _).
  destruct (member "content" ps) as [| | | | | |cps|] eqn:Hcps; try discriminate.
  assert (Hv : member "visible" cps = VBool false).
  { cbn [ContentState.of_value] in Hc.
    destruct (optional as_string (member "text" cps)); [|discriminate].
    destruct (member "visible" cps); try discriminate.
    cbn in Hc. inversion Hc as [Hc']. rewrite <- Hc' in Hvis. cbn in Hvis. now subst. }
  assert (Hcps' : member "content" (json_copy_props ps) = VObj (json_copy_props cps)).
  { rewrite member_json_copy_props by (now rewrite Hcps).
    now rewrite Hcps. }
  assert (Hv' : member "visible" (json_copy_props cps) = VBool false).
  { rewrite member_json_copy_props by (now rewrite Hv).
    now rewrite Hv. }
  unfold applyStateDelta. cbn [json_roundtrip json_kept bind]. rewrite json_copy_obj.
  cbn [state_delta get_prop assoc_get String.eqb Ascii.eqb Bool.eqb bind iterate
       apply_patches].
  rewrite (failed_test_patch _ "/content/visible" (VBool true) _
             (VObj (json_copy_props ps)) (VObj (json_copy_props cps)) (VBool false)).
  2:{ repeat split. }
  2:{ apply descend_walk. change (parents_of "/content/visible") with ["content"].
      cbn [descend]. now rewrite (member_found _ _ _ Hcps'). }
  2:{ change (key_of "/content/visible") with "visible".
      rewrite get_prop_obj by reflexivity. now rewrite Hv'. }
  2:{ reflexivity. }
  cbn [bind].
  unfold apply_patch.
  cbn [patch_op get_prop assoc_get String.eqb Ascii.eqb Bool.eqb bind].
  change (pathParts "/content/text") with ["content"; "text"].
  cbn [removelast last].
  rewrite (navigate_one _ _ _ _ Hcps').
  cbn [apply_op is_action strict_eq String.eqb Ascii.eqb Bool.eqb orb bind].
  rewrite set_prop_obj by reflexivity. cbn [bind app].
  eexists. eexists. split; [reflexivity|].
  rewrite get_prop_obj, member_set_same by reflexivity. split; [reflexivity|].
  rewrite !get_prop_obj by reflexivity. rewrite member_own_set_same.
  now rewrite member_own_set_other, Hv' by discriminate.
Qed.

(** C6.  A [test] that finds another value than the one it expects does
    not stop the batch.  Wherever the walk to the parent of its target
    returns -- as it does, creating nothing, when the members on the way are
    there -- the [test] returns with a warning, and the operations after it
    are applied, in order, to the state it leaves; a batch with a failing
    [test] of a member that is there leaves the state the batch without the
    [test] leaves.  On a state whose content is hidden, the batch
    [test /content/visible true; replace /content/text X] records the
    mismatch and sets the text to [X]. *)
Theorem failed_test_does_not_abort :
  (forall patch path v st st' parent found,
      is_patch patch (VStr "test") path v ->
      walk (parents_of path) st = Returns (st', parent) ->
      get_prop parent (key_of path) = Returns found ->
      strict_eq found v = false ->
      apply_patch st patch = Returns (st', [test_failed path]))
  /\ (forall parents st parent,
         descend parents st = Some parent ->
         walk parents st = Returns (st, parent))
  /\ (forall pre post patch path v st st1 w1 st1' parent found,
         is_patch patch (VStr "test") path v ->
         apply_patches pre st = Returns (st1, w1) ->
         walk (parents_of path) st1 = Returns (st1', parent) ->
         get_prop parent (key_of path) = Returns found ->
         strict_eq found v = false ->
         apply_patches (pre ++ patch :: post) st
         = ('(st3, w3) <- apply_patches post st1' ;;
            Returns (st3, (w1 ++ test_failed path :: w3)%list)))
  /\ (forall m pre post patch path v st0 st1 w1 parent found,
         is_patch patch (VStr "test") path v ->
         json_roundtrip (state m) = Returns st0 ->
         apply_patches pre st0 = Returns (st1, w1) ->
         descend (parents_of path) st1 = Some parent ->
         get_prop parent (key_of path) = Returns found ->
         strict_eq found v = false ->
         applyDelta m (state_delta (pre ++ patch :: post))
         = ('(st3, w3) <- apply_patches post st1 ;;
            Returns (notifyListeners
                       {| state := st3; listeners := listeners m; timers := timers m;
                          events := events m ++ w1 ++ test_failed path :: w3 |}))
         /\ manager_state (applyDelta m (state_delta (pre ++ patch :: post)))
            = manager_state (applyDelta m (state_delta (pre ++ post))))
  /\ (forall st S,
         UIState.reads_as st S ->
         ContentState.visible (UIState.content S) = false ->
         exists st' content,
           applyStateDelta st
             (state_delta [patch_op (VStr "test") "/content/visible" (VBool true);
                           patch_op (VStr "replace") "/content/text" (VStr "X")])
           = Returns (st', [test_failed "/content/visible"])
           /\ get_prop st' "content" = Returns content
           /\ get_prop content "text" = Returns (VStr "X")
           /\ get_prop content "visible" = Returns (VBool false)).
Proof.
  assert (Hbatch : forall pre post patch path v st st1 w1 st1' parent found,
             is_patch patch (VStr "test") path v ->
             apply_patches pre st = Returns (st1, w1) ->
             walk (parents_of path) st1 = Returns (st1', parent) ->
             get_prop parent (key_of path) = Returns found ->
             strict_eq found v = false ->
             apply_patches (pre ++ patch :: post) st
             = ('(st3, w3) <- apply_patches post st1' ;;
                Returns (st3, (w1 ++ test_failed path :: w3)%list))).
  { intros pre post patch path v st st1 w1 st1' parent found Hp Hpre Hwalk Hget Hne.
    rewrite apply_patches_app, Hpre. cbn [bind apply_patches].
    rewrite (failed_test_patch _ _ _ _ _ _ _ Hp Hwalk Hget Hne). cbn [bind].
    destruct (apply_patches post st1') as [[st3 w3]| |]; reflexivity. }
  split; [|split; [|split; [|split]]].
  - intros patch path v st st' parent found. apply failed_test_patch.
  - intros parents st parent. apply descend_walk.
  - exact Hbatch.
  - intros m pre post patch path v st0 st1 w1 parent found Hp Hcopy Hpre Hdesc Hget Hne.
    pose proof (Hbatch pre post patch path v st0 st1 w1 st1 parent found Hp Hpre
                  (descend_walk _ _ _ Hdesc) Hget Hne) as Hrun.
    unfold applyDelta, applyStateDelta. rewrite Hcopy.
    cbn [state_delta get_prop assoc_get String.eqb Ascii.eqb Bool.eqb bind iterate].
    rewrite Hrun, apply_patches_app, Hpre. cbn [bind].
    destruct (apply_patches post st1) as [[st3 w3]| |]; split; reflexivity.
  - intros st S Hst Hvis. now apply (failed_test_example st S).
Qed.

Lemma failed_test_does_not_abort_witness :
  applyStateDelta getInitialState
    (state_delta [patch_op (VStr "test") "/content/visible" (VBool true);
                  patch_op (VStr "replace") "/content/text" (VStr "X")])
  = Returns
      (VObj [("content", VObj [("visible", VBool false); ("text", VStr "X")]);
             ("mediaUpload",
              VObj [("visible", VBool false);
                    ("status", VStr "idle");
                    ("acceptedTypes", VArr [VStr "image/*"]);
                    ("multiple", VBool false)]);
             ("buttons", VObj [])],
       [Warned "State delta test failed for path: /content/visible"])
  /\ manager_state
       (applyDelta (constructor VUndef)
          (state_delta [patch_op (VStr "test") "/mediaUpload/status" (VStr "uploading");
                        patch_op (VStr "add") "/buttons/ok" (VObj [])]))
     = manager_state
         (applyDelta (constructor VUndef)
            (state_delta [patch_op (VStr "add") "/buttons/ok" (VObj [])])).
Proof.
  destruct failed_test_does_not_abort as (_ & _ & _ & Hdelta & Hexample).
  split.
  - destruct (Hexample getInitialState UIState.initial eq_refl eq_refl)
      as (st' & content & Hret & _).
    rewrite Hret. f_equal. f_equal.
    vm_compute in Hret. now inversion Hret.
  - apply (Hdelta (constructor VUndef) []
             [patch_op (VStr "add") "/buttons/ok" (VObj [])]
             (patch_op (VStr "test") "/mediaUpload/status" (VStr "uploading"))
             "/mediaUpload/status" (VStr "uploading")
             getInitialState getInitialState []
             (VObj [("visible", VBool false); ("status", VStr "idle");
                    ("acceptedTypes", VArr [VStr "image/*"]);
                    ("multiple", VBool false)])
             (VStr "idle"));
      try reflexivity.
    repeat split.
Defined.

(* ================================================================== *)
(** * The stream demultiplexer *)

(** One line of the loops over lines, for a line that is known to parse
    as [parsed]. *)
Lemma handle_lines_parsed (JSON_parse : string -> option value) (with_error : bool)
  (line : string) (rest : list string) (t : turn) (parsed : value) :
  parseSSEData JSON_parse line = parsed ->
  handle_lines JSON_parse with_error (line :: rest) t
  = (if negb (truthy parsed) then handle_lines JSON_parse with_error rest t
     else
       done <- get_prop parsed "done" ;;
       if truthy done then Returns (t, StreamDone)
       else
         '(t1, s) <- dispatch with_error t parsed ;;
         match s with
         | Continue => handle_lines JSON_parse with_error rest t1
         | _ => Returns (t1, s)
         end).
Proof. intros <-. reflexivity. Qed.

(** The lines of the example, as [parseSSEData] reads them. *)
Lemma parse_payload (JSON_parse : string -> option value) (payload : string)
  (v : value) (line : string) :
  JSON_parse payload = Some v ->
  String.eqb line ("data: " ++ payload) = true ->
  trim payload = payload ->
  String.eqb payload "[DONE]" = false ->
  parseSSEData JSON_parse line = v.
Proof.
  intros Hparse Hline Htrim Hdone. apply String.eqb_eq in Hline. subst line.
  unfold parseSSEData.
  change (starts_with "data: " ("data: " ++ payload)) with true.
  change (slice_from 6 ("data: " ++ payload)) with payload.
  cbn [negb]. now rewrite Htrim, Hdone, Hparse.
Qed.

Lemma parse_done (JSON_parse : string -> option value) (line : string) :
  String.eqb line "data: [DONE]" = true ->
  parseSSEData JSON_parse line = VObj [("done", VBool true)].
Proof. intros H. apply String.eqb_eq in H. now subst line. Qed.

Lemma parse_empty (JSON_parse : string -> option value) (line : string) :
  String.eqb line "" = true -> parseSSEData JSON_parse line = VNull.
Proof. intros H. apply String.eqb_eq in H. now subst line. Qed.

(** Running the loops on the example: the pieces of the text are computed,
    each line is read by one of the facts above, and what the line is
    dispatched to is computed on the value it carries. *)
Ltac read_line H1 H2 :=
  match goal with
  | |- context [handle_lines ?P ?we (?l :: ?rest) ?t] =>
      first
        [ rewrite (handle_lines_parsed P we l rest t _
                     (parse_payload P text_delta_json _ l H1 eq_refl eq_refl eq_refl))
        | rewrite (handle_lines_parsed P we l rest t _
                     (parse_payload P show_upload_json _ l H2 eq_refl eq_refl eq_refl))
        | rewrite (handle_lines_parsed P we l rest t _ (parse_done P l eq_refl))
        | rewrite (handle_lines_parsed P we l rest t _ (parse_empty P l eq_refl)) ]
  end.

Ltac compute_dispatch :=
  match goal with
  | |- context [dispatch ?we ?t ?v] =>
      let r := eval vm_compute in (dispatch we t v) in
      change (dispatch we t v) with r
  end.

Ltac compute_pieces :=
  match goal with
  | |- context [split ?sep ?s] =>
      let r := eval vm_compute in (split sep s) in
      change (split sep s) with r
  end.

Ltac end_of_lines :=
  match goal with
  | |- context [handle_lines ?P ?we [] ?t] =>
      change (handle_lines P we [] t) with (Returns (t, Continue))
  end.

Ltac run_example H1 H2 :=
  unfold stream_turn, text_turn;
  repeat first
    [ progress cbn [read_loop pop bind removelast last truthy negb flush
                    get_prop assoc_get String.eqb Ascii.eqb Bool.eqb
                    text_delta_value show_upload_value inherited is_method
                    existsb prototype_methods orb]
    | compute_pieces
    | compute_dispatch
    | end_of_lines
    | read_line H1 H2 ].

(** C8.  For every JSON parser that reads the two payloads as the
    [text-delta] and the [show-upload] directive they spell, and from every
    manager: the body [text-delta Hello; ui-directive show-upload with accept
    image/*; [DONE]] leaves the response text [Hello] and the upload state
    [{visible: true, status: idle, acceptedTypes: [image/*], multiple:
    false}] (the object also has a member [label], which holds
    [undefined]) -- read in one chunk, frame by frame, in chunks that cut
    through the frames, or as a whole body. *)
Theorem stream_example (JSON_parse : string -> option value) (m : UIManager) :
  JSON_parse text_delta_json = Some text_delta_value ->
  JSON_parse show_upload_json = Some show_upload_value ->
  example_result (stream_turn JSON_parse m [example_body])
  /\ example_result
       (stream_turn JSON_parse m
          [frame text_delta_json; frame show_upload_json; frame "[DONE]"])
  /\ example_result
       (stream_turn JSON_parse m
          [substring 0 30 example_body; substring 30 40 example_body;
           substring 70 200 example_body])
  /\ example_result (text_turn JSON_parse m example_body).
Proof.
  intros H1 H2. unfold example_result.
  repeat split; run_example H1 H2;
    eexists; (split; [reflexivity|]); repeat split; reflexivity.
Qed.

Lemma stream_example_witness :
  example_result (stream_turn example_parse (constructor VUndef) [example_body]).
Proof.
  apply (stream_example example_parse (constructor VUndef)); reflexivity.
Defined.

(* ================================================================== *)
(** * Object identity *)

Lemma nth_error_snoc {A : Type} (h : list A) (c : A) :
  nth_error (h ++ [c]) (List.length h) = Some c.
Proof. rewrite nth_error_app2, Nat.sub_diag by lia. reflexivity. Qed.

Lemma nth_error_list_set_same {A : Type} (h : list A) (n : nat) (c : A) :
  n < List.length h -> nth_error (list_set n c h) n = Some c.
Proof.
  revert n. induction h as [|x h IH]; intros [|n] Hn; simpl in *; try lia; auto.
  apply IH. lia.
Qed.

Lemma nth_error_list_set_other {A : Type} (h : list A) (n k : nat) (c : A) :
  k <> n -> nth_error (list_set n c h) k = nth_error h k.
Proof.
  revert n k. induction h as [|x h IH]; intros [|n] [|k] Hne; simpl; auto.
  - now elim Hne.
Qed.

Lemma nth_error_in_bounds {A : Type} (h : list A) (n : nat) (c : A) :
  nth_error h n = Some c -> n < List.length h.
Proof. intros H. apply nth_error_Some. congruence. Qed.


Lemma value_ind_nested (P : value -> Prop) :
  P VUndef -> P VNull -> (forall b, P (VBool b)) -> (forall n, P (VNum n)) ->
  (forall s, P (VStr s)) ->
  (forall l, Forall P l -> P (VArr l)) ->
  (forall ps, Forall (fun kv => P (snd kv)) ps -> P (VObj ps)) ->
  (forall f, P (VFun f)) ->
  forall v, P v.
Proof.
  intros HU HN HB HZ HS HA HO HF. fix IH 1.
  intros [| | b | n | s | l | ps | f];
    [exact HU | exact HN | apply HB | apply HZ | apply HS | | | apply HF].
  - apply HA. induction l as [|x l IHl]; constructor; [apply IH | exact IHl].
  - apply HO. induction ps as [|[k x] ps IHps]; constructor; [apply IH | exact IHps].
Qed.

Lemma keeps_refl (h : Ref.heap) : Ref.keeps h h.
Proof. exists []. now rewrite app_nil_r. Qed.

Lemma keeps_trans (h1 h2 h3 : Ref.heap) :
  Ref.keeps h1 h2 -> Ref.keeps h2 h3 -> Ref.keeps h1 h3.
Proof. intros [e1 ->] [e2 ->]. exists (e1 ++ e2)%list. now rewrite app_assoc. Qed.

Lemma keeps_app (h h1 ext : Ref.heap) :
  Ref.keeps h h1 -> Ref.keeps h (h1 ++ ext)%list.
Proof. intros [e ->]. exists (e ++ ext)%list. now rewrite app_assoc. Qed.

Lemma keeps_length (h h1 : Ref.heap) : Ref.keeps h h1 -> List.length h <= List.length h1.
Proof. intros [e ->]. rewrite length_app. lia. Qed.

(** An assignment to an object that did not exist in [h]. *)
Lemma keeps_list_set (h h1 : Ref.heap) (l : Ref.loc) (c : Ref.cell) :
  Ref.keeps h h1 -> List.length h <= l -> Ref.keeps h (list_set l c h1).
Proof.
  intros [e ->] Hl. exists (list_set (l - List.length h) c e).
  revert l Hl. induction h as [|x h IH]; intros l Hl; simpl.
  - now rewrite Nat.sub_0_r.
  - destruct l as [|l]; simpl in *; [lia|]. f_equal. apply IH. lia.
Qed.

Lemma import_list_keeps (xs : list value) :
  Forall (fun v => forall h, Ref.keeps h (snd (Ref.import v h))) xs ->
  forall h, Ref.keeps h (snd (Ref.import_list xs h)).
Proof.
  induction 1 as [|x xs Hx _ IH]; intros h; cbn [Ref.import_list].
  - apply keeps_refl.
  - specialize (Hx h). destruct (Ref.import x h) as [r h1]. cbn [snd] in Hx.
    specialize (IH h1). destruct (Ref.import_list xs h1) as [rs h2]. cbn [snd] in *.
    eapply keeps_trans; eassumption.
Qed.

Lemma import_props_keeps (xs : list (string * value)) :
  Forall (fun kv => forall h, Ref.keeps h (snd (Ref.import (snd kv) h))) xs ->
  forall h, Ref.keeps h (snd (Ref.import_props xs h)).
Proof.
  induction 1 as [|[k x] xs Hx _ IH]; intros h; cbn [Ref.import_props].
  - apply keeps_refl.
  - cbn [snd] in Hx. specialize (Hx h). destruct (Ref.import x h) as [r h1].
    cbn [snd] in Hx.
    specialize (IH h1). destruct (Ref.import_props xs h1) as [rs h2]. cbn [snd] in *.
    eapply keeps_trans; eassumption.
Qed.

(** A value that enters the store adds objects and changes none. *)
Lemma import_keeps (v : value) (h : Ref.heap) : Ref.keeps h (snd (Ref.import v h)).
Proof.
  revert h. induction v as [| | b | n | s | l IH | ps IH | f] using value_ind_nested;
    intros h; try apply keeps_refl.
  - change (Ref.import (VArr l) h)
      with (let '(rs, h') := Ref.import_list l h in
            (Ref.RRef (List.length h'), (h' ++ [Ref.CArr rs])%list)).
    pose proof (import_list_keeps l IH h) as H.
    destruct (Ref.import_list l h) as [rs h']. cbn [snd] in *. now apply keeps_app.
  - change (Ref.import (VObj ps) h)
      with (let '(rs, h') := Ref.import_props ps h in
            (Ref.RRef (List.length h'), (h' ++ [Ref.CObj rs])%list)).
    pose proof (import_props_keeps ps IH h) as H.
    destruct (Ref.import_props ps h) as [rs h']. cbn [snd] in *. now apply keeps_app.
Qed.

Lemma import_eq_keeps (v : value) (h0 h h1 : Ref.heap) (r : Ref.rvalue) :
  Ref.import v h = (r, h1) -> Ref.keeps h0 h -> Ref.keeps h0 h1.
Proof.
  intros H Hk. eapply keeps_trans; [exact Hk|].
  pose proof (import_keeps v h) as Hi. now rewrite H in Hi.
Qed.

Lemma own_props_heap (o : Ref.rvalue) (h h0 : Ref.heap)
  (ps : list (string * Ref.rvalue)) :
  Ref.own_props o h = Returns (ps, h0) -> h0 = h.
Proof.
  destruct o as [| | | | |l|]; cbn; try (intros H; now inversion H).
  unfold Ref.mbind, Ref.lookup.
  destruct (nth_error h l) as [[]|]; cbn; intros H; now inversion H.
Qed.

Lemma inherited_heap (k : string) (h h0 : Ref.heap) (r : Ref.rvalue) :
  Ref.inherited k h = Returns (r, h0) -> h0 = h.
Proof.
  unfold Ref.inherited, Ref.ret, Ref.unmodelled.
  destruct (is_method k); [intros H; now inversion H|].
  destruct (String.eqb k "__proto__"); [discriminate|intros H; now inversion H].
Qed.

Lemma inherited_or_unknown_heap (k : string) (h h0 : Ref.heap) (r : Ref.rvalue) :
  Ref.inherited_or_unknown k h = Returns (r, h0) -> h0 = h.
Proof.
  unfold Ref.inherited_or_unknown, Ref.unmodelled.
  destruct (inherited_name k); [apply inherited_heap|discriminate].
Qed.

Lemma get_prop_heap (o : Ref.rvalue) (k : string) (h h0 : Ref.heap) (r : Ref.rvalue) :
  Ref.get_prop o k h = Returns (r, h0) -> h0 = h.
Proof.
  destruct o as [| |b|n|s|l|f]; cbn [Ref.get_prop]; try discriminate.
  - apply inherited_heap.
  - destruct (existsb (String.eqb k) number_methods);
      [intros H; now inversion H|apply inherited_heap].
  - destruct (String.eqb k "length"); [intros H; now inversion H|].
    destruct (parse_index k);
      [intros H; now inversion H|apply inherited_or_unknown_heap].
  - unfold Ref.mbind, Ref.lookup.
    destruct (nth_error h l) as [[ps|es]|]; cbn; try discriminate.
    + destruct (assoc_get k ps); [intros H; now inversion H|apply inherited_heap].
    + destruct (String.eqb k "length"); [intros H; now inversion H|].
      destruct (parse_index k);
        [intros H; now inversion H|apply inherited_or_unknown_heap].
Qed.

(** An assignment to a property of an object that did not exist in
    [base] leaves the objects of [base] as they were. *)
Lemma set_prop_keeps (base h1 h2 : Ref.heap) (l : Ref.loc) (k : string)
  (v : Ref.rvalue) (u : unit) :
  Ref.set_prop (Ref.RRef l) k v h1 = Returns (u, h2) ->
  List.length base <= l ->
  Ref.keeps base h1 ->
  Ref.keeps base h2.
Proof.
  unfold Ref.set_prop, Ref.mbind, Ref.lookup, Ref.store, Ref.unmodelled.
  destruct (nth_error h1 l) as [[ps|es]|]; try discriminate.
  - destruct (String.eqb k "__proto__" && negb (assoc_mem k ps)); try discriminate.
    intros H Hl Hk. inversion H. now apply keeps_list_set.
  - destruct (parse_index k) as [i|]; try discriminate.
    destruct (Nat.ltb i (List.length es)).
    + intros H Hl Hk. inversion H. now apply keeps_list_set.
    + destruct (Nat.eqb i (List.length es)); try discriminate.
      intros H Hl Hk. inversion H. now apply keeps_list_set.
Qed.

Ltac run_step H :=
  match type of H with
  | context [Ref.own_props ?o ?hh] =>
      let E := fresh "E" in
      destruct (Ref.own_props o hh) as [[? ?]| |] eqn:E;
      [apply own_props_heap in E; subst | discriminate H | discriminate H]
  | context [Ref.get_prop ?o ?k ?hh] =>
      let E := fresh "E" in
      destruct (Ref.get_prop o k hh) as [[? ?]| |] eqn:E;
      [apply get_prop_heap in E; subst | discriminate H | discriminate H]
  | context [Ref.set_prop ?o ?k ?v ?hh] =>
      let E := fresh "E" in
      destruct (Ref.set_prop o k v hh) as [[? ?]| |] eqn:E;
      [ | discriminate H | discriminate H]
  | context [Ref.import ?v ?hh] =>
      let E := fresh "E" in
      destruct (Ref.import v hh) as [? ?] eqn:E
  | context [match get_prop ?o ?k with _ => _ end] =>
      destruct (get_prop o k); [ | discriminate H | discriminate H]
  | context [match opt_chain ?o ?k with _ => _ end] =>
      destruct (opt_chain o k); [ | discriminate H | discriminate H]
  | context [match to_key ?v with _ => _ end] =>
      destruct (to_key v); [ | discriminate H | discriminate H]
  | context [if ?b then _ else _] => destruct b
  end; cbv beta iota in H.

Ltac solve_keeps :=
  repeat first
    [ apply keeps_refl
    | eapply set_prop_keeps; [eassumption | apply le_n | ]
    | apply keeps_app
    | eapply import_eq_keeps; [eassumption|] ].

(** Every directive other than the three for buttons builds new objects
    only: every object of the store is after the call what it was before,
    so the state a reader holds shows what it showed. *)
Lemma other_directives_copy_on_write (h h' : Ref.heap) (old new : Ref.rvalue)
  (directive action : value) :
  get_prop directive "action" = Returns action ->
  is_action action "show-button" = false ->
  is_action action "hide-button" = false ->
  is_action action "update-button" = false ->
  Ref.applyUIDirective old directive h = Returns (new, h') ->
  Ref.keeps h h'.
Proof.
  intros Hact H1 H2 H3 Hrun.
  cbv beta iota delta [Ref.applyUIDirective Ref.mbind Ref.new_object Ref.alloc
                       Ref.msg_get Ref.msg_opt Ref.lift Ref.ret
                       Ref.msg_truthy Ref.msg_nullish Ref.imported] in Hrun.
  rewrite Hact in Hrun. rewrite H1, H2, H3 in Hrun. cbv beta iota in Hrun.
  repeat run_step Hrun; inversion Hrun; subst; solve_keeps.
Qed.

(** The assignment of [show-button] goes into the object the state passed
    in refers to under [buttons]: the new state object is a copy one level
    deep. *)
Lemma show_button_assigns_in_place (h : Ref.heap) (old shared : Ref.loc)
  (sps bps : list (string * Ref.rvalue)) (d : UIDirective.t) (id : string) :
  nth_error h old = Some (Ref.CObj sps) ->
  assoc_get "buttons" sps = Some (Ref.RRef shared) ->
  nth_error h shared = Some (Ref.CObj bps) ->
  UIDirective.action d = "show-button" ->
  UIDirective.button_id d = Some id ->
  id <> "" ->
  String.eqb id "__proto__" = false ->
  exists h' button,
    Ref.applyUIDirective (Ref.RRef old) (UIDirective.to_value d) h
    = Returns (Ref.RRef (List.length h), h')
    /\ nth_error h' shared = Some (Ref.CObj (own_set id (Ref.RRef button) bps))
    /\ nth_error h' (List.length h) = Some (Ref.CObj sps).
Proof.
  intros Hold Hbuttons Hshared Ha Hid Hne Hproto.
  pose proof (nth_error_in_bounds _ _ _ Hshared) as Hlt.
  destruct d as [a [p|] c]; [|discriminate]. cbn in Ha, Hid. subst a.
  destruct p as [t vi ac mu ul bid blab en pa sty]. cbn in Hid. subst bid.
  cbv beta iota delta [Ref.applyUIDirective Ref.mbind Ref.own_props Ref.lookup
                  Ref.new_object Ref.alloc Ref.msg_get Ref.msg_opt Ref.lift Ref.ret
                  Ref.msg_truthy Ref.get_prop Ref.set_prop Ref.store Ref.imported
                  Ref.throw Ref.unmodelled].
  rewrite Hold. cbv beta iota.
  cbn [UIDirective.to_value UIDirective.action UIDirective.props
       UIDirective.component fields option_map get_prop assoc_get String.eqb
       Ascii.eqb Bool.eqb is_action strict_eq orb].
  unfold opt_chain, UIDirective.props_to_value.
  cbn [nullish]. rewrite !get_prop_fields by reflexivity.
  cbn [UIDirective.props_fields field_get String.eqb Ascii.eqb Bool.eqb option_map
       UIDirective.buttonId UIDirective.enabled UIDirective.buttonLabel
       UIDirective.paction UIDirective.style].
  rewrite truthy_string by assumption.
  rewrite nth_error_snoc. cbv beta iota. rewrite Hbuttons. cbn [to_key].
  destruct en as [en|], blab as [blab|], pa as [pa|], sty as [sty|];
    cbn [option_map js_nullish nullish Ref.import];
    rewrite !nth_error_app1 by (rewrite ?length_app; simpl; lia);
    rewrite Hshared; cbv beta iota;
    rewrite Hproto; cbn [andb]; cbv beta iota;
    (eexists; eexists; split; [reflexivity|]; split;
     [apply nth_error_list_set_same; rewrite !length_app; simpl; lia
     |rewrite nth_error_list_set_other by lia;
      rewrite nth_error_app1 by (rewrite length_app; simpl; lia);
      apply nth_error_snoc]).
Qed.

(** The assignment of [hide-button] and [update-button] to an existing
    button goes into the same shared object: its member [id] now refers to
    an object that did not exist before the call. *)
Lemma hide_update_button_assign_in_place (h : Ref.heap) (old shared button : Ref.loc)
  (sps bps ops : list (string * Ref.rvalue)) (d : UIDirective.t) (id : string) :
  nth_error h old = Some (Ref.CObj sps) ->
  assoc_get "buttons" sps = Some (Ref.RRef shared) ->
  nth_error h shared = Some (Ref.CObj bps) ->
  assoc_get id bps = Some (Ref.RRef button) ->
  nth_error h button = Some (Ref.CObj ops) ->
  UIDirective.action d = "hide-button" \/ UIDirective.action d = "update-button" ->
  UIDirective.button_id d = Some id ->
  id <> "" ->
  exists h' fresh,
    Ref.applyUIDirective (Ref.RRef old) (UIDirective.to_value d) h
    = Returns (Ref.RRef (List.length h), h')
    /\ nth_error h' shared = Some (Ref.CObj (assoc_set id (Ref.RRef fresh) bps))
    /\ List.length h < fresh
    /\ nth_error h' shared <> nth_error h shared.
Proof.
  intros Hold Hbuttons Hshared Hid_old Hbutton Ha Hid Hne.
  pose proof (nth_error_in_bounds _ _ _ Hshared) as Hlt.
  pose proof (nth_error_in_bounds _ _ _ Hbutton) as Hlt'.
  assert (Hmem : String.eqb id "__proto__" && negb (assoc_mem id bps) = false).
  { unfold assoc_mem. rewrite Hid_old. apply andb_false_r. }
  assert (Hset : forall v, own_set id v bps = assoc_set id v bps)
    by (intros v; now apply (own_set_present bps id v (Ref.RRef button))).
  assert (Hchanged : forall fresh, List.length h < fresh ->
            Some (Ref.CObj (assoc_set id (Ref.RRef fresh) bps)) <> Some (Ref.CObj bps)).
  { intros fresh Hf Heq. inversion Heq as [Heq'].
    assert (Hget : assoc_get id (assoc_set id (Ref.RRef fresh) bps) = Some (Ref.RRef button))
      by now rewrite Heq'.
    rewrite assoc_get_set_same in Hget. inversion Hget. lia. }
  destruct d as [a [p|] c]; [|discriminate]. cbn in Ha, Hid.
  destruct p as [t vi ac mu ul bid blab en pa sty]. cbn in Hid. subst bid.
  cbv beta iota delta [Ref.applyUIDirective Ref.mbind Ref.own_props Ref.lookup
                       Ref.new_object Ref.alloc Ref.msg_get Ref.msg_opt Ref.lift Ref.ret
                       Ref.msg_truthy Ref.get_prop Ref.set_prop Ref.store Ref.imported
                       Ref.throw Ref.unmodelled].
  rewrite Hold. cbv beta iota.
  destruct Ha as [-> | ->];
    cbn [UIDirective.to_value UIDirective.action UIDirective.props
         UIDirective.component fields option_map get_prop assoc_get String.eqb
         Ascii.eqb Bool.eqb is_action strict_eq orb];
    unfold opt_chain, UIDirective.props_to_value;
    cbn [nullish]; rewrite !get_prop_fields by reflexivity;
    cbn [UIDirective.props_fields field_get String.eqb Ascii.eqb Bool.eqb option_map
         UIDirective.buttonId UIDirective.enabled UIDirective.buttonLabel
         UIDirective.paction UIDirective.style];
    rewrite truthy_string by assumption;
    rewrite nth_error_snoc; cbv beta iota; rewrite Hbuttons; cbn [to_key];
    rewrite !nth_error_app1 by (rewrite ?length_app; simpl; lia);
    rewrite Hshared; cbv beta iota; rewrite Hid_old; cbn [Ref.truthy];
    rewrite ?nth_error_app1 by (rewrite ?length_app; simpl; lia);
    rewrite ?Hbutton; cbv beta iota.
  - rewrite !nth_error_app1 by (rewrite ?length_app; simpl; lia).
    rewrite Hshared. cbv beta iota. rewrite Hmem, Hset. cbv beta iota.
    eexists. eexists. split; [reflexivity|].
    assert (Hnew : nth_error
                     (list_set shared
                        (Ref.CObj (assoc_set id (Ref.RRef (List.length (h ++ [Ref.CObj sps]))) bps))
                        ((h ++ [Ref.CObj sps]) ++
                         [Ref.CObj (obj_lit ops [("visible", Ref.RBool false)])])) shared
                   = Some (Ref.CObj (assoc_set id (Ref.RRef (List.length (h ++ [Ref.CObj sps]))) bps))).
    { apply nth_error_list_set_same. rewrite !length_app. simpl. lia. }
    split; [exact Hnew|].
    split; [rewrite length_app; simpl; lia|].
    intros Heq. rewrite Hnew in Heq. revert Heq.
    apply Hchanged. rewrite length_app. simpl. lia.
  - destruct en as [en|], blab as [blab|], pa as [pa|], sty as [sty|];
      cbn [option_map Ref.import];
      rewrite !nth_error_app1 by (rewrite ?length_app; simpl; lia);
      rewrite Hshared; cbv beta iota; rewrite Hmem, Hset; cbv beta iota;
      (eexists; eexists; split; [reflexivity|]);
      match goal with
      | |- nth_error (list_set shared ?c ?hh) shared = _ /\ _ =>
          assert (Hnew : nth_error (list_set shared c hh) shared = Some c)
            by (apply nth_error_list_set_same; rewrite !length_app; simpl; lia)
      end;
      (split; [exact Hnew|]);
      (split; [rewrite length_app; simpl; lia|]);
      (intros Heq; rewrite Hnew in Heq; revert Heq);
      apply Hchanged; rewrite length_app; simpl; lia.
Qed.

(** C1, at the input where the code departs from it.  A reader holds the
    state [getState()] returned before [show-button] is applied.  The call
    builds a new state object, but [buttons] of the new object is the object
    the old one refers to, and the button is assigned into it: after the
    call the state the reader holds shows the button [confirm] it did not
    show before. *)
Theorem show_button_changes_prior_snapshot :
  exists old h0 new h1 before after shared,
    Ref.getInitialState [] = Returns (old, h0)
    /\ Ref.applyUIDirective old
         (UIDirective.to_value (directive "show-button" confirm_props)) h0
       = Returns (new, h1)
    /\ new <> old
    /\ Ref.get_prop old "buttons" h1 = Returns (shared, h1)
    /\ Ref.get_prop new "buttons" h1 = Returns (shared, h1)
    /\ Ref.reify 3 h0 old = Some before
    /\ before = getInitialState
    /\ get_prop before "buttons" = Returns (VObj [])
    /\ Ref.reify 3 h1 old = Some after
    /\ get_prop after "buttons"
       = Returns (VObj [("confirm",
                         VObj [("visible", VBool true); ("enabled", VBool true);
                               ("label", VStr "OK");
                               ("action", VStr "confirm-order");
                               ("style", VStr "primary")])])
    /\ Ref.reify 3 h1 new = Some after
    /\ applyUIDirective before
         (UIDirective.to_value (directive "show-button" confirm_props))
       = Returns after.
Proof.
  do 7 eexists.
  repeat (split; [reflexivity|]).
  split; [discriminate|].
  repeat (split; [reflexivity|]).
  reflexivity.
Qed.

(** The same run with a directive for the content: the state the reader
    holds is left as it was. *)
Lemma show_content_keeps_prior_snapshot :
  exists old h0 new h1 before after,
    Ref.getInitialState [] = Returns (old, h0)
    /\ Ref.applyUIDirective old
         (VObj [("type", VStr "ui-directive"); ("action", VStr "show-content");
                ("props", VObj [("text", VStr "hi")])]) h0
       = Returns (new, h1)
    /\ Ref.reify 3 h0 old = Some before
    /\ Ref.reify 3 h1 old = Some before
    /\ Ref.reify 3 h1 new = Some after
    /\ get_prop after "content"
       = Returns (VObj [("visible", VBool true); ("text", VStr "hi")]).
Proof. do 6 eexists. repeat (split; [reflexivity|]). reflexivity. Qed.
